(** * Verification of the arxivreader chat client (chatbot-api-client.js,
    chatbot-ui.js, error-handler.js).

    JavaScript strings are modelled as lists of UTF-16 code units ([jstr]);
    [String.length] is the length of that list, and the regular expressions
    of the source, which carry no [u] flag, match single code units. *)

From Stdlib Require Import String Ascii NArith ZArith Lia.
From stdpp Require Import base list sorting gmap.
Import ListNotations.
Open Scope list_scope.

(** ** JavaScript strings *)

Definition jstr := list N.

(** A string literal of the source, written with ASCII characters only. *)
Definition js (s : string) : jstr := map N_of_ascii (list_ascii_of_string s).

(** ** ValidationUtils.escapeHtml / ChatbotUI.escapeHtml

    Both classes carry the same code: a global regular-expression replace
    of each of the five code units ampersand, less-than, greater-than,
    double quote and apostrophe by its entity from a constant table. *)

Definition esc_unit (c : N) : jstr :=
  if N.eqb c 38 then js "&amp;"
  else if N.eqb c 60 then js "&lt;"
  else if N.eqb c 62 then js "&gt;"
  else if N.eqb c 34 then js "&quot;"
  else if N.eqb c 39 then js "&#039;"
  else [c].

Definition escapeHtml (text : jstr) : jstr := flat_map esc_unit text.

(** The five entities produced by [escapeHtml]. *)
Definition html_entities : list jstr :=
  [js "&amp;"; js "&lt;"; js "&gt;"; js "&quot;"; js "&#039;"].

(** [e] occurs in [s] starting at index [i]. *)
Definition occurs_at (e s : jstr) (i : nat) : Prop :=
  firstn (length e) (skipn i s) = e.

(** ** String.prototype.trim

    WhiteSpace and LineTerminator code units of ECMA-262: TAB, LF, VT, FF,
    CR, SPACE, NBSP, the Zs characters of the BMP and ZWNBSP, LS, PS. *)

Definition is_js_space (c : N) : bool :=
  (c =? 9)%N || (c =? 10)%N || (c =? 11)%N || (c =? 12)%N || (c =? 13)%N
  || (c =? 32)%N || (c =? 160)%N || (c =? 5760)%N
  || ((8192 <=? c)%N && (c <=? 8202)%N)
  || (c =? 8232)%N || (c =? 8233)%N || (c =? 8239)%N || (c =? 8287)%N
  || (c =? 12288)%N || (c =? 65279)%N.

Fixpoint trim_start (s : jstr) : jstr :=
  match s with
  | [] => []
  | c :: r => if is_js_space c then trim_start r else s
  end.

Definition trim (s : jstr) : jstr := rev (trim_start (rev (trim_start s))).

(** ** ValidationUtils.validateChatMessage *)

Record validation := mk_validation {
  v_valid : bool;
  v_error : option jstr;
  v_sanitized : jstr
}.

Definition MAX_CHAT_MESSAGE : nat := 10000.

(** The argument is a string; [!message] holds exactly for the empty one. *)
Definition validateChatMessage (message : jstr) : validation :=
  match message with
  | [] => mk_validation false (Some (js "Message cannot be empty")) []
  | _ :: _ =>
      let trimmed := trim message in
      if Nat.eqb (length trimmed) 0 then
        mk_validation false (Some (js "Message cannot be empty")) []
      else if Nat.ltb MAX_CHAT_MESSAGE (length trimmed) then
        mk_validation false (Some (js "Message too long (max 10,000 characters)")) []
      else mk_validation true None (escapeHtml trimmed)
  end.

Example escape_demo :
  escapeHtml (js "<a href='x'>&") = js "&lt;a href=&#039;x&#039;&gt;&amp;".
Proof. reflexivity. Qed.

Example trim_demo : trim (js "  hi there ") = js "hi there".
Proof. reflexivity. Qed.

Example validate_demo1 : v_valid (validateChatMessage (js "   ")) = false.
Proof. reflexivity. Qed.

Example validate_demo2 :
  validateChatMessage (js " a<b ") = mk_validation true None (js "a&lt;b").
Proof. reflexivity. Qed.

Example validate_demo3 :
  v_valid (validateChatMessage (repeat 97%N 10001)) = false
  /\ v_valid (validateChatMessage (repeat 97%N 10000)) = true.
Proof. vm_compute. split; reflexivity. Qed.

(** ** ChatbotAPIClient.streamMessage *)

Module Stream.

(** The fields of a parsed server-sent event that the client reads.
    [data.error] and [data.chunk] are strings or absent, [data.done] a flag. *)
Record sse_data := mk_sse {
  sd_error : option jstr;
  sd_chunk : option jstr;
  sd_done : bool;
  sd_message_id : option jstr
}.

(** JavaScript truthiness of an optional string field. *)
Definition truthy (o : option jstr) : bool :=
  match o with Some (_ :: _) => true | _ => false end.

(** One [reader.read()]: a decoded value, or a rejection of the read. *)
Inductive read_result :=
| RValue (v : jstr)
| RFail (msg : jstr).

(** The outcome of [fetch]: a rejection, or a response with its [ok] flag,
    its status text and the successive reads of its body; the body is done
    after the last read. *)
Inductive response :=
| FetchFail (msg : jstr)
| Resp (ok : bool) (status : jstr) (reads : list read_result).

(** The [Error] objects handed to [onError]. *)
Inductive stream_error :=
| ServerError (reason : jstr)
| HttpError (status : jstr)
| NetworkError (msg : jstr).

Definition error_message (e : stream_error) : jstr :=
  match e with
  | ServerError r => r
  | HttpError st => js "HTTP " ++ st
  | NetworkError m => m
  end.

(** [s.split('\n')]: always at least one piece. *)
Fixpoint split_nl (s : jstr) : list jstr :=
  match s with
  | [] => [[]]
  | c :: r =>
      let rest := split_nl r in
      if N.eqb c 10 then [] :: rest
      else match rest with
           | [] => [[c]]
           | x :: xs => (c :: x) :: xs
           end
  end.

Definition startsWith (p s : jstr) : bool := bool_decide (firstn (length p) s = p).

Section Driver.
Context {S : Type}.
(** [JSON.parse]; [None] when it throws or yields a value whose fields
    cannot be read. *)
Variable json_parse : jstr -> option sse_data.
(** The three callbacks act on a state and report whether they threw. *)
Variable onChunk : jstr -> S -> S * bool.
Variable onComplete : option jstr -> S -> S * bool.
Variable onError : stream_error -> S -> S * bool.

(** Whether the loop goes on with the next line or [streamMessage]
    returns. *)
Inductive flow :=
| Continue (s : S)
| Return (s : S).

Definition flow_state (f : flow) : S :=
  match f with Continue s => s | Return s => s end.

(** The body of [for (const line of lines)]; the inner [try] catches
    a throw of [JSON.parse] or of a callback and goes on. *)
Definition process_line (line : jstr) (s : S) : flow :=
  if startsWith (js "data: ") line then
    match json_parse (drop 6 line) with
    | None => Continue s
    | Some d =>
        if truthy (sd_error d) then
          let (s1, threw) := onError (ServerError (default [] (sd_error d))) s in
          if threw then Continue s1 else Return s1
        else
          let (s1, threw) :=
            if truthy (sd_chunk d) then onChunk (default [] (sd_chunk d)) s
            else (s, false) in
          if threw then Continue s1
          else if sd_done d then
            let (s2, threw2) := onComplete (sd_message_id d) s1 in
            if threw2 then Continue s2 else Return s2
          else Continue s1
    end
  else Continue s.

Fixpoint process_lines (lines : list jstr) (s : S) : flow :=
  match lines with
  | [] => Continue s
  | l :: ls =>
      match process_line l s with
      | Continue s' => process_lines ls s'
      | Return s' => Return s'
      end
  end.

(** The [while (true)] loop; [buffer] holds the incomplete last line.
    The boolean result is true when the promise of [streamMessage]
    rejects, i.e. when [onError] throws inside the outer [catch]. *)
Fixpoint read_loop (reads : list read_result) (buffer : jstr) (s : S) : S * bool :=
  match reads with
  | [] => (s, false)
  | RFail m :: _ => onError (NetworkError m) s
  | RValue v :: rest =>
      let lines := split_nl (buffer ++ v) in
      match process_lines (removelast lines) s with
      | Return s' => (s', false)
      | Continue s' => read_loop rest (List.last lines []) s'
      end
  end.

Definition streamMessage (resp : response) (s : S) : S * bool :=
  match resp with
  | FetchFail m => onError (NetworkError m) s
  | Resp ok status reads =>
      if ok then read_loop reads [] s else onError (HttpError status) s
  end.
End Driver.

(** The lines of a body that end in a newline, in order. *)
Definition complete_lines (s : jstr) : list jstr := removelast (split_nl s).

(** Recording the callback invocations; [throws] says which of them throw. *)
Inductive call :=
| CChunk (c : jstr)
| CComplete (mid : option jstr)
| CError (e : stream_error).

Definition is_chunk_call (c : call) : bool :=
  match c with CChunk _ => true | _ => false end.

Definition record (throws : call -> bool) (c : call) (t : list call) : list call * bool :=
  (t ++ [c], throws c).

Definition trace_with (throws : call -> bool) (json_parse : jstr -> option sse_data)
    (resp : response) : list call :=
  fst (streamMessage json_parse
         (fun c => record throws (CChunk c))
         (fun m => record throws (CComplete m))
         (fun e => record throws (CError e)) resp []).

(** The callback invocations when every callback returns normally. *)
Definition trace := trace_with (fun _ => false).

(** Two payloads as the server sends them, and [JSON.parse] on them. *)
Definition dq : jstr := [34%N].
Definition json_chunk_a : jstr :=
  js "{" ++ dq ++ js "chunk" ++ dq ++ js ": " ++ dq ++ js "a" ++ dq ++ js "}".
Definition json_done_m1 : jstr :=
  js "{" ++ dq ++ js "done" ++ dq ++ js ": true, " ++ dq ++ js "message_id" ++ dq
  ++ js ": " ++ dq ++ js "m1" ++ dq ++ js "}".
Definition json_error_boom : jstr :=
  js "{" ++ dq ++ js "error" ++ dq ++ js ": " ++ dq ++ js "boom" ++ dq ++ js "}".
Definition demo_parse (p : jstr) : option sse_data :=
  if bool_decide (p = json_chunk_a) then Some (mk_sse None (Some (js "a")) false None)
  else if bool_decide (p = json_done_m1) then Some (mk_sse None None true (Some (js "m1")))
  else if bool_decide (p = json_error_boom) then Some (mk_sse (Some (js "boom")) None false None)
  else None.

Definition sse_line (payload : jstr) : jstr := js "data: " ++ payload ++ [10%N; 10%N].

Example trace_demo :
  trace demo_parse
    (Resp true (js "200")
       [RValue (js "data: " ++ take 5 json_chunk_a);
        RValue (drop 5 json_chunk_a ++ [10%N; 10%N]);
        RValue (sse_line json_done_m1 ++ sse_line json_done_m1)])
  = [CChunk (js "a"); CComplete (Some (js "m1"))].
Proof. vm_compute. reflexivity. Qed.

End Stream.

(** ** ChatbotUI: the conversation controller and the chat DOM *)

Module UI.
Import Stream.

Inductive role := User | Assistant.

(** Entries of [this.messages] as the server returns them, and the
    optimistic messages built by [sendMessage]. *)
Record message := mk_message { m_role : role; m_content : jstr }.

(** A fragment of the inner HTML of a message's text element: the output of
    [formatMessageContent] on a content (its markdown rewriting is left
    uninterpreted), or HTML written by the streaming code. *)
Inductive piece :=
| PFormatted (content : jstr)
| PRaw (html : jstr).

(** Children of [#chat-messages] other than [#chat-welcome]: messages and
    typing indicators carry class [chat-message], the loading indicator
    does not. *)
Inductive element_kind :=
| MsgEl (r : role)
| TypingEl
| LoadingEl.

Record element := mk_el {
  el_id : N;
  el_kind : element_kind;
  el_streaming : bool;   (** class [streaming] on the message div *)
  el_text_id : bool;     (** its text div has id [streaming-text] *)
  el_text : list piece   (** inner HTML of the text div *)
}.

(** The locals of one [sendMessage] call, shared by its three callbacks:
    the thread passed to [streamMessage], [typingIndicatorId], [responseId]
    and [firstChunk]. *)
Record send_ctx := mk_ctx {
  ctx_thread : jstr;
  ctx_typing : N;
  ctx_response : option N;
  ctx_first : bool
}.

(** Element ids ([msg_<time>_<random>], [typing_<time>]) are modelled as
    fresh numbers drawn from [next_id]. [thread_reloads] counts the calls of
    [loadPaperThreads] started by [completeStreamingMessage]. *)
Record ui_state := mk_ui {
  currentThreadId : option jstr;
  isStreaming : bool;
  send_disabled : bool;
  input_value : jstr;
  messages : list message;
  dom : list element;
  welcome_shown : bool;
  status : option jstr;
  next_id : N;
  pending : option send_ctx;
  thread_reloads : nat
}.

Definition set_current v st := mk_ui v st.(isStreaming) st.(send_disabled) st.(input_value) st.(messages) st.(dom) st.(welcome_shown) st.(status) st.(next_id) st.(pending) st.(thread_reloads).
Definition set_streaming v st := mk_ui st.(currentThreadId) v st.(send_disabled) st.(input_value) st.(messages) st.(dom) st.(welcome_shown) st.(status) st.(next_id) st.(pending) st.(thread_reloads).
Definition set_disabled v st := mk_ui st.(currentThreadId) st.(isStreaming) v st.(input_value) st.(messages) st.(dom) st.(welcome_shown) st.(status) st.(next_id) st.(pending) st.(thread_reloads).
Definition set_input v st := mk_ui st.(currentThreadId) st.(isStreaming) st.(send_disabled) v st.(messages) st.(dom) st.(welcome_shown) st.(status) st.(next_id) st.(pending) st.(thread_reloads).
Definition set_messages v st := mk_ui st.(currentThreadId) st.(isStreaming) st.(send_disabled) st.(input_value) v st.(dom) st.(welcome_shown) st.(status) st.(next_id) st.(pending) st.(thread_reloads).
Definition set_dom v st := mk_ui st.(currentThreadId) st.(isStreaming) st.(send_disabled) st.(input_value) st.(messages) v st.(welcome_shown) st.(status) st.(next_id) st.(pending) st.(thread_reloads).
Definition set_welcome v st := mk_ui st.(currentThreadId) st.(isStreaming) st.(send_disabled) st.(input_value) st.(messages) st.(dom) v st.(status) st.(next_id) st.(pending) st.(thread_reloads).
Definition set_status v st := mk_ui st.(currentThreadId) st.(isStreaming) st.(send_disabled) st.(input_value) st.(messages) st.(dom) st.(welcome_shown) v st.(next_id) st.(pending) st.(thread_reloads).
Definition set_next v st := mk_ui st.(currentThreadId) st.(isStreaming) st.(send_disabled) st.(input_value) st.(messages) st.(dom) st.(welcome_shown) st.(status) v st.(pending) st.(thread_reloads).
Definition set_pending v st := mk_ui st.(currentThreadId) st.(isStreaming) st.(send_disabled) st.(input_value) st.(messages) st.(dom) st.(welcome_shown) st.(status) st.(next_id) v st.(thread_reloads).
Definition set_reloads v st := mk_ui st.(currentThreadId) st.(isStreaming) st.(send_disabled) st.(input_value) st.(messages) st.(dom) st.(welcome_shown) st.(status) st.(next_id) st.(pending) v.

Arguments set_current _ _ /.
Arguments set_streaming _ _ /.
Arguments set_disabled _ _ /.
Arguments set_input _ _ /.
Arguments set_messages _ _ /.
Arguments set_dom _ _ /.
Arguments set_welcome _ _ /.
Arguments set_status _ _ /.
Arguments set_next _ _ /.
Arguments set_pending _ _ /.
Arguments set_reloads _ _ /.

(** [document.getElementById] on the chat log. *)
Definition find_el (id : N) (d : list element) : option element :=
  List.find (fun e => N.eqb (el_id e) id) d.

Definition update_el (id : N) (f : element -> element) (d : list element) : list element :=
  map (fun e => if N.eqb (el_id e) id then f e else e) d.

Definition has_chat_message_class (e : element) : bool :=
  match el_kind e with LoadingEl => false | _ => true end.

(** [showStatus] / [clearStatus]: the text shown in [#chat-status]. *)
Definition showStatus (msg : jstr) (st : ui_state) : ui_state := set_status (Some msg) st.
Definition clearStatus (st : ui_state) : ui_state := set_status None st.

(** [addMessage]: hides the welcome, appends the message div, returns its id. *)
Definition addMessage (m : message) (streaming : bool) (st : ui_state) : ui_state * N :=
  let id := next_id st in
  let text := if streaming then [] else [PFormatted (m_content m)] in
  let e := mk_el id (MsgEl (m_role m)) streaming streaming text in
  (set_next (id + 1)%N (set_dom (dom st ++ [e]) (set_welcome false st)), id).

Definition showTypingIndicator (st : ui_state) : ui_state * N :=
  let id := next_id st in
  (set_next (id + 1)%N (set_dom (dom st ++ [mk_el id TypingEl false false []])
                           (set_welcome false st)), id).

Definition removeTypingIndicator (id : N) (st : ui_state) : ui_state :=
  set_dom (List.filter (fun e => negb (N.eqb (el_id e) id)) (dom st)) st.

Definition showChatLoading (st : ui_state) : ui_state :=
  let id := next_id st in
  set_next (id + 1)%N (set_dom (dom st ++ [mk_el id LoadingEl false false []])
                         (set_welcome false st)).

(** [sendMessage] up to its [await]: the state after the synchronous part,
    and the (thread, message) of the stream it starts, if any. *)
Definition sendMessage (st : ui_state) : ui_state * option (jstr * jstr) :=
  let message := trim (input_value st) in
  match currentThreadId st with
  | Some tid =>
      if negb (bool_decide (message = [])) && negb (isStreaming st) && truthy (Some tid)
      then
        let st1 := set_streaming true (set_disabled true (set_input [] st)) in
        let (st2, _) := addMessage (mk_message User message) false st1 in
        let (st3, typing) := showTypingIndicator st2 in
        (set_pending (Some (mk_ctx tid typing None true)) st3, Some (tid, message))
      else (st, None)
  | None => (st, None)
  end.

(** A throw is reported by the boolean; [document.getElementById] returning
    [null] makes the next property access throw. *)
Definition updateStreamingMessage (id : N) (chunk : jstr) (st : ui_state) : ui_state * bool :=
  match find_el id (dom st) with
  | None => (st, true)
  | Some e =>
      if el_text_id e then
        (set_dom (update_el id (fun e => mk_el (el_id e) (el_kind e) (el_streaming e)
                     (el_text_id e) (el_text e ++ [PRaw (escapeHtml chunk)])) (dom st)) st, false)
      else (st, false)
  end.

Definition completeStreamingMessage (id : N) (st : ui_state) : ui_state * bool :=
  match find_el id (dom st) with
  | None => (st, true)
  | Some _ =>
      (set_reloads (S (thread_reloads st))
         (set_dom (update_el id (fun e => mk_el (el_id e) (el_kind e) false false (el_text e))
                     (dom st)) st), false)
  end.

Definition error_notice (e : stream_error) : jstr :=
  js "<span class=" ++ dq ++ js "text-danger" ++ dq ++ js ">Error: " ++ error_message e
  ++ js "</span>".

Definition chat_error (msg : jstr) : jstr := js "Chat error: " ++ msg.

Definition handleStreamingError (id : N) (err : stream_error) (st : ui_state) : ui_state * bool :=
  match find_el id (dom st) with
  | None => (st, true)
  | Some _ =>
      let fix_el e :=
        if el_text_id e then mk_el (el_id e) (el_kind e) false false [PRaw (error_notice err)]
        else mk_el (el_id e) (el_kind e) false false (el_text e) in
      (showStatus (chat_error (error_message err)) (set_dom (update_el id fix_el (dom st)) st),
       false)
  end.

(** The three callbacks that [sendMessage] passes to [streamMessage]. *)
Definition onChunk (chunk : jstr) (st : ui_state) : ui_state * bool :=
  match pending st with
  | None => (st, false)
  | Some ctx =>
      if ctx_first ctx then
        let st0 := removeTypingIndicator (ctx_typing ctx) st in
        let (st1, r) := addMessage (mk_message Assistant []) true st0 in
        let st2 := set_pending (Some (mk_ctx (ctx_thread ctx) (ctx_typing ctx) (Some r) false)) st1 in
        updateStreamingMessage r chunk st2
      else
        match ctx_response ctx with
        | Some r => updateStreamingMessage r chunk st
        | None => (st, true)
        end
  end.

Definition onComplete (mid : option jstr) (st : ui_state) : ui_state * bool :=
  match pending st with
  | None => (st, false)
  | Some ctx =>
      match ctx_response ctx with
      | Some r => completeStreamingMessage r st
      | None => (st, false)
      end
  end.

Definition onError (err : stream_error) (st : ui_state) : ui_state * bool :=
  match pending st with
  | None => (st, false)
  | Some ctx =>
      let st1 := removeTypingIndicator (ctx_typing ctx) st in
      match ctx_response ctx with
      | Some r => handleStreamingError r err st1
      | None => (showStatus (chat_error (error_message err)) st1, false)
      end
  end.

(** The [catch] (when the promise of [streamMessage] rejected with a message)
    and the [finally] of [sendMessage]. *)
Definition finishSend (rejected : option jstr) (st : ui_state) : ui_state :=
  let st1 :=
    match rejected, pending st with
    | Some m, Some ctx => showStatus (chat_error m) (removeTypingIndicator (ctx_typing ctx) st)
    | Some m, None => showStatus (chat_error m) st
    | None, _ => st
    end in
  set_pending None (set_disabled false (set_streaming false st1)).

(** [loadThread] up to its [await], and its continuation. *)
Definition loadThreadStart (tid : jstr) (st : ui_state) : ui_state :=
  showChatLoading (set_current (Some tid) st).

Definition renderMessages (st : ui_state) : ui_state :=
  match messages st with
  | [] => set_welcome true st
  | ms =>
      let st1 := set_dom (List.filter (fun e => negb (has_chat_message_class e)) (dom st))
                   (set_welcome false st) in
      fold_left (fun s m => fst (addMessage m false s)) ms st1
  end.

Definition loadThreadDone (msgs : list message) (st : ui_state) : ui_state :=
  clearStatus (renderMessages (set_messages msgs st)).

Definition loadThreadFail (msg : jstr) (st : ui_state) : ui_state :=
  showStatus (js "Failed to load conversation: " ++ msg) st.

(** The [input] listener of the text area. *)
Definition onInput (v : jstr) (st : ui_state) : ui_state :=
  set_disabled (bool_decide (trim v = []) || isStreaming st) (set_input v st).

(** User actions and the continuations of pending asynchronous calls, in
    the order the event loop runs them. These are all the code paths that
    write [isStreaming], the disabled flag of [#send-btn], the chat log or
    [currentThreadId] during a send. *)
Inductive ui_event :=
| EInput (v : jstr)
| ESend
| EChunk (c : jstr)
| EComplete (mid : option jstr)
| EError (e : stream_error)
| EFinish (rejected : option jstr)
| ELoadStart (tid : jstr)
| ELoadDone (msgs : list message)
| ELoadFail (msg : jstr).

(** One event; the boolean says whether it started a stream. *)
Definition ui_step (st : ui_state) (ev : ui_event) : ui_state * bool :=
  match ev with
  | EInput v => (onInput v st, false)
  | ESend =>
      let (st', req) := sendMessage st in
      (st', match req with Some _ => true | None => false end)
  | EChunk c => (fst (onChunk c st), false)
  | EComplete mid => (fst (onComplete mid st), false)
  | EError e => (fst (onError e st), false)
  | EFinish r => (finishSend r st, false)
  | ELoadStart tid => (loadThreadStart tid st, false)
  | ELoadDone msgs => (loadThreadDone msgs st, false)
  | ELoadFail m => (loadThreadFail m st, false)
  end.

(** A run: the final state and the number of streams started. *)
Fixpoint run (st : ui_state) (evs : list ui_event) : ui_state * nat :=
  match evs with
  | [] => (st, 0)
  | ev :: evs' =>
      let (st1, started) := ui_step st ev in
      let (st2, n) := run st1 evs' in
      (st2, (if started then 1 else 0) + n)
  end.

(** The message of the [TypeError] that rejects [streamMessage] when
    [onError] throws in its outer [catch]. *)
Definition type_error_msg : jstr := js "Cannot read properties of null".

(** A whole send when nothing else happens meanwhile: the synchronous part,
    the stream driving the three callbacks, then [catch]/[finally]. *)
Definition send_and_stream (json_parse : jstr -> option sse_data) (resp : response)
    (st : ui_state) : ui_state :=
  match sendMessage st with
  | (st1, None) => st1
  | (st1, Some _) =>
      let (st2, rej) := streamMessage json_parse onChunk onComplete onError resp st1 in
      finishSend (if rej then Some type_error_msg else None) st2
  end.

(** The controller as the page creates it, with a thread selected and some
    text typed in. *)
Definition init_ui (tid : option jstr) : ui_state :=
  mk_ui tid false true [] [] [] true None 0%N None 0.

Definition typed (tid : jstr) (text : jstr) : ui_state := onInput text (init_ui (Some tid)).

Example send_demo :
  let st := fst (run (typed (js "t1") (js "hi")) [ESend; EChunk (js "a<"); EChunk (js "b")]) in
  map el_text (dom st) = [[PFormatted (js "hi")]; [PRaw (js "a&lt;"); PRaw (js "b")]]
  /\ isStreaming st = true /\ send_disabled st = true.
Proof. vm_compute. auto. Qed.

Example send_stream_demo :
  let st := send_and_stream demo_parse
              (Resp true (js "200") [RValue (sse_line json_chunk_a ++ sse_line json_done_m1)])
              (typed (js "t1") (js "hi")) in
  map el_text (dom st) = [[PFormatted (js "hi")]; [PRaw (js "a")]]
  /\ map el_streaming (dom st) = [false; false]
  /\ isStreaming st = false /\ send_disabled st = false /\ thread_reloads st = 1.
Proof. vm_compute. auto. Qed.

End UI.

(** ** ChatbotUI.loadPaperThreads *)

Module Threads.

(** A thread record as the server lists it; [t_updated_at] is the time value
    in milliseconds of [new Date(thread.updated_at)], a valid date. *)
Record thread := mk_thread {
  t_id : jstr;
  t_title : jstr;
  t_message_count : nat;
  t_updated_at : Z
}.

(** [a] may stand before [b] under the comparator
    [(a, b) => new Date(b.updated_at) - new Date(a.updated_at)]. *)
Definition newer_or_same (a b : thread) : Prop := (t_updated_at b <= t_updated_at a)%Z.

Global Instance newer_or_same_dec : RelDecision newer_or_same.
Proof. intros a b. unfold newer_or_same. apply _. Defined.

(** [Array.prototype.sort] with a consistent comparator returns the stable
    sorted permutation; merge sort computes it. *)
Definition sort_threads (ts : list thread) : list thread := merge_sort newer_or_same ts.

(** [this.threads] after [loadPaperThreads]: [None] when [getPaperThreads]
    rejects (the [catch] empties the list). *)
Definition loadPaperThreads (server : option (list thread)) : list thread :=
  match server with
  | Some ts => sort_threads ts
  | None => []
  end.

Example sort_demo :
  map t_updated_at (loadPaperThreads (Some [mk_thread (js "a") [] 0 5; mk_thread (js "b") [] 0 9;
                                          mk_thread (js "c") [] 0 7])) = [9; 7; 5]%Z.
Proof. reflexivity. Qed.

End Threads.

(** ** ErrorHandler.parseError and getUserFriendlyMessage *)

Module Errors.

(** The values [handleError] receives: an [Error] instance with its name,
    message, stack and any further own properties, a string, or anything
    else. *)
Inductive js_error :=
| ErrInstance (name message stack : jstr) (props : list (jstr * jstr))
| ErrString (s : jstr)
| ErrOther.

Record error_info := mk_info {
  ei_message : jstr;
  ei_stack : option jstr;
  ei_type : jstr;
  ei_context : jstr;
  ei_timestamp : jstr;
  ei_userMessage : jstr
}.

(** [String.prototype.includes]. *)
Fixpoint includes (hay needle : jstr) : bool :=
  Stream.startsWith needle hay
  || match hay with [] => false | _ :: t => includes t needle end.

Definition getUserFriendlyMessage (message context : jstr) : jstr :=
  if includes message (js "fetch") || includes message (js "network")
     || includes message (js "NetworkError") then
    js "Unable to connect to the server. Please check your internet connection and try again."
  else if includes message (js "timeout") || includes message (js "timed out") then
    js "The request took too long to complete. Please try again."
  else if includes message (js "401") || includes message (js "Unauthorized") then
    js "Authentication failed. Please check your API key in settings."
  else if includes message (js "403") || includes message (js "Forbidden") then
    js "Access denied. Please check your permissions."
  else if includes message (js "404") || includes message (js "Not Found") then
    js "The requested resource was not found."
  else if includes message (js "429") || includes message (js "Too Many Requests") then
    js "Too many requests. Please wait a moment and try again."
  else if includes message (js "500") || includes message (js "Internal Server Error") then
    js "Server error occurred. Please try again later."
  else if includes message (js "Invalid") || includes message (js "invalid") then
    js "Invalid input: " ++ message
  else if includes message (js "JSON") || includes message (js "parse") then
    js "Failed to process server response. Please try again."
  else if includes message (js "localStorage") || includes message (js "storage") then
    js "Browser storage error. Your browser may be in private mode or storage may be full."
  else if includes context (js "Chat") then
    js "Chat error: " ++ message ++ js ". Please try reloading the page."
  else if includes context (js "Search") then
    js "Search error: " ++ message ++ js ". Please try again with different keywords."
  else if includes context (js "Paper") then
    js "Failed to load paper: " ++ message
  else js "An unexpected error occurred. Please try again later.".

(** [now] is [new Date().toISOString()]. *)
Definition parseError (now : jstr) (error : js_error) (context : jstr) : error_info :=
  let '(message, stack, type) :=
    match error with
    | ErrInstance name msg stk _ => (msg, Some stk, name)
    | ErrString s => (s, None, js "Error")
    | ErrOther => (js "Unknown error occurred", None, js "Unknown")
    end in
  mk_info message stack type context now (getUserFriendlyMessage message context).

(** The text [showErrorToUser] displays: a toast when the app object is
    present, an alert otherwise. *)
Definition shown_to_user (info : error_info) (showDetails app_present : bool) : jstr :=
  if app_present then
    if showDetails then ei_userMessage info ++ [10%N; 10%N] ++ js "Details: " ++ ei_message info
    else ei_userMessage info
  else js "Error: " ++ ei_userMessage info.

(** The message text [parseError] reads from an error value. *)
Definition message_text (error : js_error) : jstr :=
  match error with
  | ErrInstance _ msg _ _ => msg
  | ErrString s => s
  | ErrOther => js "Unknown error occurred"
  end.

Example friendly_demo :
  ei_userMessage (parseError [] (ErrInstance (js "Error") (js "HTTP 401") (js "at x") []) (js "Chat"))
  = js "Authentication failed. Please check your API key in settings.".
Proof. reflexivity. Qed.

End Errors.

(** ** ValidationUtils: arXiv identifiers, keywords, titles, file names *)

Module Validation.

Definition is_digit (c : N) : bool := (48 <=? c)%N && (c <=? 57)%N.
Definition is_lower (c : N) : bool := (97 <=? c)%N && (c <=? 122)%N.
Definition is_upper (c : N) : bool := (65 <=? c)%N && (c <=? 90)%N.

(** [\w] without the [u] flag, with or without [i]: [A-Za-z0-9_]. *)
Definition is_word (c : N) : bool :=
  is_digit c || is_lower c || is_upper c || (c =? 95)%N.

Definition all_digits (s : jstr) : bool := forallb is_digit s.

(** [(v\d+)?$] on what follows the number. *)
Definition version_suffix (s : jstr) : bool :=
  match s with
  | [] => true
  | v :: ds => (v =? 118)%N && match ds with [] => false | _ => all_digits ds end
  end.

(** [/^\d{4}\.\d{4,5}(v\d+)?$/]: four digits, a dot, four or five digits,
    an optional version. *)
Definition new_format (s : jstr) : bool :=
  match s with
  | d1 :: d2 :: d3 :: d4 :: dot :: rest =>
      all_digits [d1; d2; d3; d4] && (dot =? 46)%N
      && ((Nat.leb 4 (length rest) && all_digits (firstn 4 rest)
           && version_suffix (skipn 4 rest))
          || (Nat.leb 5 (length rest) && all_digits (firstn 5 rest)
              && version_suffix (skipn 5 rest)))
  | _ => false
  end.

Definition is_archive_unit (c : N) : bool := is_lower c || (c =? 45)%N.

(** [/^[a-z-]+\/\d{7}$/]: the class excludes the slash, so a match has its
    slash eighth from the end. *)
Definition old_format (s : jstr) : bool :=
  let n := length s in
  Nat.leb 9 n && forallb is_archive_unit (firstn (n - 8) s)
  && (nth (n - 8) s 0 =? 47)%N && all_digits (skipn (n - 7) s).

(** The argument is a string; [!arxivId] holds exactly for the empty one. *)
Definition validateArxivId (arxivId : jstr) : validation :=
  match arxivId with
  | [] => mk_validation false (Some (js "ArXiv ID is required")) []
  | _ :: _ =>
      let trimmed := trim arxivId in
      let isValid := new_format trimmed || old_format trimmed in
      mk_validation isValid
        (if isValid then None else Some (js "Invalid ArXiv ID format")) trimmed
  end.

(** Case folding of the [i] flag without [u]: a unit of the (ASCII) patterns
    below matches only its ASCII upper and lower case forms. *)
Definition to_lower (c : N) : N := if is_upper c then (c + 32)%N else c.

(** An unanchored test of a lower-case literal pattern under [i]. *)
Definition test_ci (pattern s : jstr) : bool := Errors.includes (map to_lower s) pattern.

(** [\w*=] *)
Fixpoint word_run_eq (s : jstr) : bool :=
  match s with
  | [] => false
  | c :: r => (c =? 61)%N || (is_word c && word_run_eq r)
  end.

(** [/on\w+=/i] anywhere in [s]. *)
Fixpoint on_handler (s : jstr) : bool :=
  match s with
  | [] => false
  | c :: r =>
      ((to_lower c =? 111)%N
       && match r with
          | n :: w :: r' => (to_lower n =? 110)%N && is_word w && word_run_eq r'
          | _ => false
          end)
      || on_handler r
  end.

Definition dangerous (s : jstr) : bool :=
  test_ci (js "<script") s || test_ci (js "javascript:") s || on_handler s
  || test_ci (js "data:text/html") s.

(** The class of [<], [>], the apostrophe and the double quote. *)
Definition is_angle_or_quote (c : N) : bool :=
  (c =? 60)%N || (c =? 62)%N || (c =? 39)%N || (c =? 34)%N.

Definition validateKeyword (keyword : jstr) : validation :=
  match keyword with
  | [] => mk_validation false (Some (js "Keyword cannot be empty")) []
  | _ :: _ =>
      let trimmed := trim keyword in
      if Nat.eqb (length trimmed) 0 then
        mk_validation false (Some (js "Keyword cannot be empty")) []
      else if Nat.ltb 100 (length trimmed) then
        mk_validation false (Some (js "Keyword too long (max 100 characters)")) []
      else if dangerous trimmed then
        mk_validation false (Some (js "Keyword contains invalid characters")) []
      else mk_validation true None
             (List.filter (fun c => negb (is_angle_or_quote c)) trimmed)
  end.

Definition validateThreadTitle (title : jstr) : validation :=
  match title with
  | [] => mk_validation false (Some (js "Title cannot be empty")) []
  | _ :: _ =>
      let trimmed := trim title in
      if Nat.eqb (length trimmed) 0 then
        mk_validation false (Some (js "Title cannot be empty")) []
      else if Nat.ltb 200 (length trimmed) then
        mk_validation false (Some (js "Title too long (max 200 characters)")) []
      else mk_validation true None (escapeHtml trimmed)
  end.

(** [replace(/[\/\\]/g, '_')] *)
Definition slash_to_underscore (c : N) : N :=
  if (c =? 47)%N || (c =? 92)%N then 95%N else c.

(** The class of [<], [>], [:], the double quote, [|], [?] and [*]. *)
Definition is_reserved (c : N) : bool :=
  (c =? 60)%N || (c =? 62)%N || (c =? 58)%N || (c =? 34)%N
  || (c =? 124)%N || (c =? 63)%N || (c =? 42)%N.

(** [replace(/\s+/g, '_')]: each maximal run of white space becomes one
    underscore; [in_run] tells whether the unit before was white space. *)
Fixpoint collapse_space (in_run : bool) (s : jstr) : jstr :=
  match s with
  | [] => []
  | c :: r =>
      if is_js_space c then
        if in_run then collapse_space true r else 95%N :: collapse_space true r
      else c :: collapse_space false r
  end.

Definition sanitizeFilename (filename : jstr) : jstr :=
  match filename with
  | [] => js "file"
  | _ :: _ =>
      firstn 255
        (collapse_space false
           (List.filter (fun c => negb (is_reserved c))
              (map slash_to_underscore filename)))
  end.

Example arxiv_demo :
  map (fun s => v_valid (validateArxivId (js s)))
    [" 2401.12345v2 "; "2401.1234"; "2401.123"; "hep-th/9901001"; "cs/012345"; "2401.12345v"]%string
  = [true; true; false; true; false; false].
Proof. reflexivity. Qed.

Example keyword_demo :
  v_valid (validateKeyword (js "onload=x")) = false
  /\ v_valid (validateKeyword (js "JavaScript:x")) = false
  /\ validateKeyword (js " a<b ") = mk_validation true None (js "ab").
Proof. repeat split; reflexivity. Qed.

Example filename_demo :
  sanitizeFilename (js "a/b\c  d?.txt") = js "a_b_c_d.txt".
Proof. reflexivity. Qed.

End Validation.

(** ** ValidationUtils.checkRateLimit *)

Module RateLimit.

(** What [localStorage.getItem] returns under a rate-limit key, as
    [checkRateLimit] reads it: the JSON text it wrote itself, with the
    request times and the window start, or a text that [JSON.parse] rejects
    or the empty string, after which the code starts afresh. The arguments
    [maxRequests] and [timeWindow] and the times of [Date.now()] are
    integers. *)
Inductive stored :=
| SData (requests : list Z) (windowStart : Z)
| SUnreadable.

Inductive reset_in :=
| RIn (ms : Z)
| RInfinity.

Record limit_result := mk_limit {
  allowed : bool;
  resetIn : reset_in
}.

(** [Math.min(...requests)]; [None] is the [Infinity] of an empty list. *)
Fixpoint min_list (l : list Z) : option Z :=
  match l with
  | [] => None
  | x :: r => match min_list r with None => Some x | Some m => Some (Z.min x m) end
  end.

(** [now] is [Date.now()]. When no request was made, [oldestRequest] is
    [Infinity] and [timeWindow - (now - Infinity)] is [Infinity]. *)
Definition checkRateLimit (storage : gmap jstr stored) (key : jstr)
    (maxRequests timeWindow now : Z) : gmap jstr stored * limit_result :=
  let storageKey := js "rateLimit_" ++ key in
  let '(requests, windowStart) :=
    match storage !! storageKey with
    | Some (SData r w) => (r, w)
    | _ => ([], now)
    end in
  let requests := List.filter (fun timestamp => Z.ltb (now - timestamp) timeWindow) requests in
  if Z.leb maxRequests (Z.of_nat (length requests)) then
    (storage,
     mk_limit false
       (match min_list requests with
        | Some oldestRequest => RIn (timeWindow - (now - oldestRequest))
        | None => RInfinity
        end))
  else
    (<[storageKey := SData (requests ++ [now]) windowStart]> storage, mk_limit true (RIn 0)).

(** Successive calls with one key at the given times: each time with
    whether the call was allowed. *)
Fixpoint run_calls (storage : gmap jstr stored) (key : jstr) (maxRequests timeWindow : Z)
    (times : list Z) : gmap jstr stored * list (Z * bool) :=
  match times with
  | [] => (storage, [])
  | now :: rest =>
      let '(storage1, r) := checkRateLimit storage key maxRequests timeWindow now in
      let '(storage2, out) := run_calls storage1 key maxRequests timeWindow rest in
      (storage2, (now, allowed r) :: out)
  end.

Definition allowed_times (out : list (Z * bool)) : list Z := map fst (List.filter snd out).

(** The request times stored under a storage key, as the next call reads them. *)
Definition stored_requests (storage : gmap jstr stored) (storageKey : jstr) : list Z :=
  match storage !! storageKey with Some (SData r _) => r | _ => [] end.

(** The number of times of [l] in the window [(u - timeWindow, u]]. *)
Definition in_window (timeWindow u : Z) (l : list Z) : nat :=
  length (List.filter (fun a => Z.ltb (u - timeWindow) a && Z.leb a u) l).

Example rate_demo :
  snd (run_calls ∅ (js "chat") 2 1000 [0; 10; 20; 999; 1000; 1011]%Z)
  = [(0, true); (10, true); (20, false); (999, false); (1000, true); (1011, true)]%Z.
Proof. reflexivity. Qed.

End RateLimit.

(** ** ErrorHandler: the error log and the guarded helpers *)

Module ErrorLog.
Import Errors.

(** What an [ErrorHandler] changes: [errorLog], the messages shown with
    [app.showToast] or [alert] (their text, as [shown_to_user] gives it),
    and the [errorInfo] objects passed to [options.onError] callbacks. *)
Record handler := mk_handler {
  errorLog : list error_info;
  displayed : list jstr;
  reported : list error_info
}.

Definition maxLogSize : nat := 100.

(** The [options] of [handleError] it reads: [silent], [showDetails], and
    whether [onError] is a function. [{}] is [no_options]. *)
Record handle_options := mk_options {
  o_silent : bool;
  o_showDetails : bool;
  o_onError : bool
}.

Definition no_options : handle_options := mk_options false false false.
Definition silent_options : handle_options := mk_options true false false.

(** [console.error] output is not modelled. *)
Definition logError (errorInfo : error_info) (h : handler) : handler :=
  let log := errorInfo :: errorLog h in
  mk_handler (if Nat.ltb maxLogSize (length log) then firstn maxLogSize log else log)
    (displayed h) (reported h).

Definition showErrorToUser (app_present : bool) (errorInfo : error_info)
    (showDetails : bool) (h : handler) : handler :=
  mk_handler (errorLog h) (displayed h ++ [shown_to_user errorInfo showDetails app_present])
    (reported h).

(** [now] is the [new Date().toISOString()] of [parseError]; [app_present]
    tells whether [app.showToast] exists. *)
Definition handleError (app_present : bool) (now : jstr) (h : handler) (error : js_error)
    (context : jstr) (options : handle_options) : handler * error_info :=
  let errorInfo := parseError now error context in
  let h1 := logError errorInfo h in
  let h2 := if o_silent options then h1
            else showErrorToUser app_present errorInfo (o_showDetails options) h1 in
  let h3 := if o_onError options
            then mk_handler (errorLog h2) (displayed h2) (reported h2 ++ [errorInfo])
            else h2 in
  (h3, errorInfo).

(** Successive [handleError] calls, each with its time, error, context and
    options. *)
Fixpoint handle_all (app_present : bool) (h : handler)
    (calls : list (jstr * js_error * jstr * handle_options)) : handler :=
  match calls with
  | [] => h
  | (now, error, context, options) :: rest =>
      handle_all app_present (fst (handleError app_present now h error context options)) rest
  end.

Definition call_info (call : jstr * js_error * jstr * handle_options) : error_info :=
  let '(now, error, context, _) := call in parseError now error context.

Definition call_options (call : jstr * js_error * jstr * handle_options) : handle_options :=
  let '(_, _, _, options) := call in options.

(** The outcome of a call that may throw: its value or the thrown value. *)
Definition outcome (A : Type) : Type := A + js_error.

(** [wrapSync(fn, context, fallbackValue)] applied to arguments on which
    [fn] has the given outcome. *)
Definition wrapSync {A} (app_present : bool) (now : jstr) (h : handler)
    (result : outcome A) (context : jstr) (fallbackValue : A) : handler * A :=
  match result with
  | inl v => (h, v)
  | inr error => (fst (handleError app_present now h error context no_options), fallbackValue)
  end.

(** [wrapAsync(fn, context)]: the returned promise settles like [fn]'s. *)
Definition wrapAsync {A} (app_present : bool) (now : jstr) (h : handler)
    (result : outcome A) (context : jstr) : handler * outcome A :=
  match result with
  | inl v => (h, inl v)
  | inr error => (fst (handleError app_present now h error context no_options), inr error)
  end.

(** [safeJSONParse(jsonString, fallback)], where [JSON.parse(jsonString)]
    has the outcome [parsed]. *)
Definition safeJSONParse {V} (app_present : bool) (now : jstr) (h : handler)
    (parsed : outcome V) (fallback : V) : handler * V :=
  match parsed with
  | inl v => (h, v)
  | inr error =>
      (fst (handleError app_present now h error (js "JSON Parse") silent_options), fallback)
  end.

(** [safeLocalStorageGet(key, fallback)]: [item] is the outcome of
    [localStorage.getItem(key)], [parse] that of [JSON.parse]. *)
Definition safeLocalStorageGet {V} (app_present : bool) (now : jstr) (h : handler)
    (item : outcome (option jstr)) (parse : jstr -> outcome V) (fallback : V) : handler * V :=
  let fail error :=
    (fst (handleError app_present now h error (js "LocalStorage Get") silent_options), fallback) in
  match item with
  | inr error => fail error
  | inl None => (h, fallback)
  | inl (Some value) =>
      match parse value with
      | inl v => (h, v)
      | inr error => fail error
      end
  end.

(** [safeLocalStorageSet(key, value)]: [text] is the outcome of
    [JSON.stringify(value)], [setItem] the error [localStorage.setItem]
    throws on a text, if any. *)
Definition safeLocalStorageSet (app_present : bool) (now : jstr) (h : handler)
    (text : outcome jstr) (setItem : jstr -> option js_error) : handler * bool :=
  let fail error :=
    (fst (handleError app_present now h error (js "LocalStorage Set") silent_options), false) in
  match text with
  | inr error => fail error
  | inl s => match setItem s with None => (h, true) | Some error => fail error end
  end.

(** [Array.prototype.slice(start, end)] on integer arguments: a negative
    index counts from the end, and both are clamped to the array. *)
Definition rel_index (len : nat) (i : Z) : nat :=
  if Z.ltb i 0 then Z.to_nat (Z.max 0 (Z.of_nat len + i)) else Z.to_nat (Z.min i (Z.of_nat len)).

Definition slice {A} (l : list A) (start end_ : Z) : list A :=
  let from := rel_index (length l) start in
  let to := rel_index (length l) end_ in
  firstn (to - from) (skipn from l).

(** [getErrorLog(limit)]; the default [limit] is 10. *)
Definition getErrorLog (h : handler) (limit : Z) : list error_info :=
  slice (errorLog h) 0 limit.

Definition clearErrorLog (h : handler) : handler :=
  mk_handler [] (displayed h) (reported h).

(** The constructor. *)
Definition new_handler : handler := mk_handler [] [] [].

End ErrorLog.

(** ** ChatbotUI: opening a chat, deleting a thread, formatting *)

Module ChatView.
Import Stream UI Threads.

(** The outcome of [apiClient.validatePaper(paperId)]: a rejection with its
    message, or [validation.validation] with [valid], [reason] and [title]. *)
Inductive paper_validation :=
| PVFail (msg : jstr)
| PVResult (valid : bool) (reason : jstr) (title : option jstr).

(** The kind passed to [showStatus]: ['info'] or ['error']. *)
Inductive status_kind := StInfo | StError.

(** What [openChat] does, in order: the assignment of [currentPaperId],
    [showStatus], the awaited call of [loadPaperThreads], [show], the awaited
    call of [createNewThread] with its title, the call of [loadThread] (not
    awaited) and [clearStatus]. The two called methods catch their own
    errors, so none of them reaches the [catch] of [openChat]. *)
Inductive open_effect :=
| SetPaper (paperId : jstr)
| Status (msg : jstr) (kind : status_kind)
| LoadThreads
| Show
| CreateThread (title : jstr)
| LoadThread (threadId : jstr)
| ClearStatus.

(** [openChat(paperId)]: [validation] is the outcome of [validatePaper],
    [server] the outcome of [getPaperThreads] read by [loadPaperThreads],
    whose sorted list [this.threads] then holds. *)
Definition openChat (paperId : jstr) (validation : paper_validation)
    (server : option (list thread)) : list open_effect :=
  [SetPaper paperId; Status (js "Validating paper for chat...") StInfo]
  ++ match validation with
     | PVFail msg => [Status (js "Failed to open chat: " ++ msg) StError]
     | PVResult false reason _ => [Status reason StError]
     | PVResult true _ title =>
         [LoadThreads; Show]
         ++ match loadPaperThreads server with
            | [] => [CreateThread (js "Discussion with "
                                   ++ match title with Some (_ :: _ as t) => t | _ => js "Paper" end)]
            | t :: _ => [LoadThread (t_id t)]
            end
         ++ [ClearStatus]
     end.

(** [deleteThread(threadId)] once [apiClient.deleteThread] and the reload of
    the thread list have resolved. *)
Definition deleteThreadDone (threadId : jstr) (st : ui_state) : ui_state :=
  if bool_decide (Some threadId = currentThreadId st)
  then renderMessages (set_messages [] (set_current None st))
  else st.

Definition deleteThreadFail (msg : jstr) (st : ui_state) : ui_state :=
  showStatus (js "Failed to delete conversation: " ++ msg) st.

(** *** formatMessageContent *)

(** [.] without the [s] flag matches every code unit but the line
    terminators LF, CR, LS and PS. *)
Definition is_line_terminator (c : N) : bool :=
  (c =? 10)%N || (c =? 13)%N || (c =? 8232)%N || (c =? 8233)%N.

(** The lazy [(.*?)] followed by the closing delimiter, from the start of
    [s]: the shortest text before the delimiter, and what follows it. *)
Fixpoint lazy_close (close s acc : jstr) : option (jstr * jstr) :=
  if startsWith close s then Some (rev acc, skipn (length close) s)
  else match s with
       | [] => None
       | c :: r => if is_line_terminator c then None else lazy_close close r (c :: acc)
       end.

(** [s.replace(/D(.*?)D/g, open + '$1' + close)] for a literal delimiter
    [D]: at each position, from the left, a match is replaced and the scan
    goes on after it; where no match starts the code unit is kept. [fuel]
    is the length of [s], one step per code unit at least. *)
Fixpoint replace_delimited (delim tag_open tag_close : jstr) (fuel : nat) (s : jstr) : jstr :=
  match fuel with
  | O => s
  | S fuel' =>
      match s with
      | [] => []
      | c :: r =>
          match (if startsWith delim s then lazy_close delim (skipn (length delim) s) []
                 else None) with
          | Some (inner, rest) =>
              tag_open ++ inner ++ tag_close
              ++ replace_delimited delim tag_open tag_close fuel' rest
          | None => c :: replace_delimited delim tag_open tag_close fuel' r
          end
      end
  end.

Definition replace_pairs (delim tag_open tag_close s : jstr) : jstr :=
  replace_delimited delim tag_open tag_close (length s) s.

(** The argument is a string; [!content] holds exactly for the empty one. *)
Definition formatMessageContent (content : jstr) : jstr :=
  match content with
  | [] => []
  | _ :: _ =>
      flat_map (fun c => if (c =? 10)%N then js "<br>" else [c])
        (replace_pairs (js "`") (js "<code>") (js "</code>")
           (replace_pairs (js "*") (js "<em>") (js "</em>")
              (replace_pairs (js "**") (js "<strong>") (js "</strong>") content)))
  end.

(** *** formatDate *)

(** The decimal digits of a natural number ([String(n)]). *)
Fixpoint decimal_digits (fuel : nat) (n : N) (acc : jstr) : jstr :=
  match fuel with
  | O => acc
  | S fuel' =>
      let d := (48 + n mod 10)%N in
      if (n / 10 =? 0)%N then d :: acc else decimal_digits fuel' (n / 10) (d :: acc)
  end.

Definition N_to_decimal (n : N) : jstr := decimal_digits (S (N.size_nat n)) n [].

Section FormatDate.

(** [date.toLocaleDateString()], which depends on the locale; its argument
    is the time value of the date, [None] for an invalid date. *)
Variable toLocaleDateString : option Z -> jstr.

(** [formatDate(timestamp)] at the time value [now]: [timestamp] parses to
    the time value [Some t], or to an invalid date ([None]), whose [NaN]
    day count matches no test. [Math.ceil(diffTime / 86400000)] is the exact
    ceiling: the double quotient of two integers below 2^40 rounds to
    neither side of an integer. *)
Definition formatDate (now : Z) (timestamp : option Z) : jstr :=
  match timestamp with
  | None => toLocaleDateString None
  | Some t =>
      let diffTime := Z.abs (now - t) in
      let diffDays := ((diffTime + 86399999) / 86400000)%Z in
      if (diffDays =? 1)%Z then js "Today"
      else if (diffDays =? 2)%Z then js "Yesterday"
      else if (diffDays <? 7)%Z then N_to_decimal (Z.to_N diffDays) ++ js " days ago"
      else toLocaleDateString (Some t)
  end.

End FormatDate.

Example format_demo :
  formatMessageContent (js "**b** *i* `c`") = js "<strong>b</strong> <em>i</em> <code>c</code>"
  /\ formatMessageContent (js "a*b") = js "a*b"
  /\ formatMessageContent (js "<img src=x>") = js "<img src=x>".
Proof. repeat split; reflexivity. Qed.

Example date_demo :
  formatDate (fun _ => js "date") 1000000000 (Some 999000000)%Z = js "Today"
  /\ formatDate (fun _ => js "date") 1000000000 (Some (1000000000 - 3 * 86400000))%Z
     = js "3 days ago"
  /\ formatDate (fun _ => js "date") 1000000000 (Some 1000000000)%Z = js "0 days ago".
Proof. repeat split; reflexivity. Qed.

End ChatView.

(** * Proofs *)

(** ** escapeHtml and validateChatMessage *)

Module EscapeProofs.

Lemma escapeHtml_cons (c : N) (t : jstr) : escapeHtml (c :: t) = esc_unit c ++ escapeHtml t.
Proof. reflexivity. Qed.

Lemma escapeHtml_app (a b : jstr) : escapeHtml (a ++ b) = escapeHtml a ++ escapeHtml b.
Proof. unfold escapeHtml. apply flat_map_app. Qed.

(** A code unit that is none of the five special ones. *)
Definition plain (u : N) : Prop :=
  u <> 38%N /\ u <> 60%N /\ u <> 62%N /\ u <> 34%N /\ u <> 39%N.

Lemma esc_unit_cases (c : N) :
  (esc_unit c = [c] /\ plain c) \/ esc_unit c ∈ html_entities.
Proof.
  unfold esc_unit, plain.
  destruct (N.eqb_spec c 38);
    [right; apply list_elem_of_In; simpl; tauto|].
  destruct (N.eqb_spec c 60);
    [right; apply list_elem_of_In; simpl; tauto|].
  destruct (N.eqb_spec c 62);
    [right; apply list_elem_of_In; simpl; tauto|].
  destruct (N.eqb_spec c 34);
    [right; apply list_elem_of_In; simpl; tauto|].
  destruct (N.eqb_spec c 39);
    [right; apply list_elem_of_In; simpl; tauto|].
  left. repeat split; assumption.
Qed.

(** Each entity is an ampersand followed by harmless code units. *)
Lemma entity_shape (e : jstr) :
  e ∈ html_entities ->
  exists tl, e = 38%N :: tl /\ Forall plain tl.
Proof.
  unfold html_entities. intros H.
  apply list_elem_of_In in H. simpl in H.
  repeat destruct H as [<-|H];
    try (eexists; split; [reflexivity|repeat constructor; unfold plain; simpl; lia]).
  contradiction.
Qed.

Lemma escapeHtml_no_special (t : jstr) :
  Forall (fun u => u <> 60%N /\ u <> 62%N /\ u <> 34%N /\ u <> 39%N) (escapeHtml t).
Proof.
  induction t as [|c t IH]; [constructor|].
  rewrite escapeHtml_cons. apply Forall_app. split; [|exact IH].
  destruct (esc_unit_cases c) as [[-> Hp]|He].
  - constructor; [|constructor]. unfold plain in Hp. tauto.
  - destruct (entity_shape _ He) as [tl [-> Htl]].
    constructor; [lia|].
    eapply Forall_impl; [exact Htl|]. unfold plain. tauto.
Qed.

Lemma escapeHtml_amp (t : jstr) (i : nat) :
  nth_error (escapeHtml t) i = Some 38%N ->
  exists e, e ∈ html_entities /\ occurs_at e (escapeHtml t) i.
Proof.
  revert i. induction t as [|c t IH]; intros i Hi.
  - destruct i; discriminate.
  - rewrite escapeHtml_cons in *. unfold occurs_at.
    destruct (Nat.lt_ge_cases i (length (esc_unit c))) as [Hlt|Hge].
    + rewrite nth_error_app1 in Hi by exact Hlt.
      destruct (esc_unit_cases c) as [[Hc Hp]|He].
      * rewrite Hc in Hi. destruct i as [|i]; simpl in Hi.
        -- injection Hi as ->. unfold plain in Hp. lia.
        -- destruct i; discriminate.
      * exists (esc_unit c). split; [exact He|].
        destruct (entity_shape _ He) as [tl [Htl Hpl]].
        destruct i as [|i].
        -- simpl. apply take_app_length.
        -- rewrite Htl in Hi. simpl in Hi.
           apply nth_error_In, list_elem_of_In in Hi. rewrite Forall_forall in Hpl.
           apply Hpl in Hi. unfold plain in Hi. lia.
    + rewrite nth_error_app2 in Hi by exact Hge.
      destruct (IH _ Hi) as [e [He Ho]].
      exists e. split; [exact He|].
      rewrite skipn_app, skipn_all2 by exact Hge. simpl. exact Ho.
Qed.

(** C10: the output of [escapeHtml] contains no less-than, greater-than,
    double quote or apostrophe; every ampersand in it starts one of the five
    entities; and [escapeHtml] distributes over concatenation. *)
Theorem escapeHtml_safe_and_homomorphic :
  (forall t : jstr,
      Forall (fun u => u <> 60%N /\ u <> 62%N /\ u <> 34%N /\ u <> 39%N) (escapeHtml t))
  /\ (forall (t : jstr) (i : nat), nth_error (escapeHtml t) i = Some 38%N ->
        exists e, e ∈ html_entities /\ occurs_at e (escapeHtml t) i)
  /\ (forall a b : jstr, escapeHtml (a ++ b) = escapeHtml a ++ escapeHtml b).
Proof.
  split; [exact escapeHtml_no_special|].
  split; [exact escapeHtml_amp|exact escapeHtml_app].
Qed.

(** C8: [validateChatMessage] rejects exactly the messages whose trimmed
    form is empty or longer than 10,000 code units, with an empty sanitized
    text, and otherwise accepts with the escaped trimmed message. *)
Theorem validateChatMessage_spec (m : jstr) :
  (v_valid (validateChatMessage m) = false <->
     trim m = [] \/ MAX_CHAT_MESSAGE < length (trim m))
  /\ (v_valid (validateChatMessage m) = false -> v_sanitized (validateChatMessage m) = [])
  /\ (v_valid (validateChatMessage m) = true ->
        v_sanitized (validateChatMessage m) = escapeHtml (trim m)).
Proof.
  destruct m as [|c m].
  - simpl. split; [split; [intros _; left; reflexivity|intros _; reflexivity]|].
    split; [reflexivity|discriminate].
  - cbn [validateChatMessage].
    destruct (Nat.eqb_spec (length (trim (c :: m))) 0) as [H0|H0].
    + apply length_zero_iff_nil in H0. rewrite H0. simpl.
      split; [tauto|]. split; [reflexivity|discriminate].
    + destruct (Nat.ltb_spec MAX_CHAT_MESSAGE (length (trim (c :: m)))) as [Hl|Hl]; simpl.
      * split; [tauto|]. split; [reflexivity|discriminate].
      * split; [|split; [discriminate|reflexivity]].
        split; [discriminate|].
        intros [Hn|Hn]; [rewrite Hn in H0; simpl in H0; lia|lia].
Qed.

End EscapeProofs.

(** ** loadPaperThreads *)

Module ThreadProofs.
Import Threads.

Global Instance newer_or_same_trans : Transitive newer_or_same.
Proof. intros a b c. unfold newer_or_same. lia. Qed.

Global Instance newer_or_same_total : Total newer_or_same.
Proof. intros a b. unfold newer_or_same. lia. Qed.

Lemma StronglySorted_lookup_lt {A} (R : relation A) (l : list A) (i j : nat) (x y : A) :
  StronglySorted R l -> i < j -> l !! i = Some x -> l !! j = Some y -> R x y.
Proof.
  intros Hs. revert i j. induction Hs as [|z l Hs IH Hall]; intros i j Hij Hi Hj.
  - discriminate.
  - destruct i as [|i]; destruct j as [|j]; try lia; simpl in *.
    + injection Hi as <-. rewrite List.Forall_forall in Hall.
      apply Hall. apply list_elem_of_In. eapply list_elem_of_lookup_2. exact Hj.
    + eapply IH; [|exact Hi|exact Hj]. lia.
Qed.

(** C7: after [loadPaperThreads] on a server list, [this.threads] is a
    permutation of that list, and a thread stands before every thread
    whose [updated_at] is strictly smaller. *)
Theorem loadPaperThreads_sorted_desc (ts : list thread) :
  loadPaperThreads (Some ts) ≡ₚ ts
  /\ forall (i j : nat) (x y : thread),
       loadPaperThreads (Some ts) !! i = Some x ->
       loadPaperThreads (Some ts) !! j = Some y ->
       (t_updated_at y < t_updated_at x)%Z -> i < j.
Proof.
  simpl. unfold sort_threads. split; [apply merge_sort_Permutation|].
  intros i j x y Hi Hj Hlt.
  pose proof (StronglySorted_merge_sort newer_or_same ts) as Hs.
  destruct (Nat.lt_trichotomy i j) as [H|[H|H]]; [exact H| |].
  - subst j. rewrite Hi in Hj. injection Hj as <-. lia.
  - pose proof (StronglySorted_lookup_lt _ _ _ _ _ _ Hs H Hj Hi) as Hr.
    unfold newer_or_same in Hr. lia.
Qed.

End ThreadProofs.

(** ** ErrorHandler *)

Module ErrorProofs.
Import Errors.

Lemma parseError_fields (now ctx : jstr) (e : js_error) :
  ei_message (parseError now e ctx) = message_text e
  /\ ei_userMessage (parseError now e ctx) = getUserFriendlyMessage (message_text e) ctx.
Proof. destruct e; split; reflexivity. Qed.

Lemma getUserFriendlyMessage_nonempty (m ctx : jstr) : getUserFriendlyMessage m ctx <> [].
Proof. unfold getUserFriendlyMessage. repeat case_match; simpl; discriminate. Qed.

(** C9: what the user is shown for an error is a non-empty text that
    depends only on the error's message text and the context: errors with
    the same message but different stacks, names or other properties, handled
    at different times, show the same text. *)
Theorem user_message_from_message_and_context
    (now1 now2 ctx : jstr) (e1 e2 : js_error) (showDetails app_present : bool) :
  message_text e1 = message_text e2 ->
  ei_userMessage (parseError now1 e1 ctx) = ei_userMessage (parseError now2 e2 ctx)
  /\ shown_to_user (parseError now1 e1 ctx) showDetails app_present
     = shown_to_user (parseError now2 e2 ctx) showDetails app_present
  /\ ei_userMessage (parseError now1 e1 ctx) <> [].
Proof.
  intros Heq.
  destruct (parseError_fields now1 ctx e1) as [Hm1 Hu1].
  destruct (parseError_fields now2 ctx e2) as [Hm2 Hu2].
  split; [|split].
  - rewrite Hu1, Hu2, Heq. reflexivity.
  - unfold shown_to_user. rewrite Hu1, Hu2, Hm1, Hm2, Heq. reflexivity.
  - rewrite Hu1. apply getUserFriendlyMessage_nonempty.
Qed.

Lemma user_message_from_message_and_context_witness :
  message_text (ErrInstance (js "Error") (js "HTTP 500") (js "at send (client.js:9)") [])
  = message_text (ErrInstance (js "TypeError") (js "HTTP 500") (js "at other (ui.js:1)")
                    [(js "apiKey", js "sk-secret")])
  /\ ei_userMessage (parseError (js "t1") (ErrInstance (js "Error") (js "HTTP 500")
                                        (js "at send (client.js:9)") []) (js "Chat"))
     = ei_userMessage (parseError (js "t2") (ErrInstance (js "TypeError") (js "HTTP 500")
                                        (js "at other (ui.js:1)") [(js "apiKey", js "sk-secret")])
                         (js "Chat")).
Proof.
  split; [reflexivity|].
  apply (user_message_from_message_and_context (js "t1") (js "t2") (js "Chat")
           (ErrInstance (js "Error") (js "HTTP 500") (js "at send (client.js:9)") [])
           (ErrInstance (js "TypeError") (js "HTTP 500") (js "at other (ui.js:1)")
              [(js "apiKey", js "sk-secret")]) false true).
  reflexivity.
Defined.

End ErrorProofs.

(** ** streamMessage *)

Module StreamProofs.
Import Stream.

(** *** Line splitting and buffering *)

Lemma split_nl_nonempty (s : jstr) : split_nl s <> [].
Proof.
  induction s as [|c s IH]; simpl; [discriminate|].
  destruct (N.eqb c 10); [discriminate|].
  destruct (split_nl s); [contradiction|discriminate].
Qed.

Lemma split_nl_app (a b : jstr) :
  split_nl (a ++ b) = removelast (split_nl a) ++ split_nl (List.last (split_nl a) [] ++ b).
Proof.
  induction a as [|c a IH]; [reflexivity|].
  simpl. pose proof (split_nl_nonempty a) as Hne.
  destruct (N.eqb c 10) eqn:Ec.
  - rewrite IH. destruct (split_nl a) as [|p ps]; [contradiction|].
    destruct ps as [|q qs]; reflexivity.
  - rewrite IH. destruct (split_nl a) as [|p ps]; [contradiction|].
    destruct ps as [|q qs].
    + simpl. rewrite Ec. destruct (split_nl (p ++ b)) as [|x xs] eqn:E; [|reflexivity].
      exfalso. exact (split_nl_nonempty _ E).
    + reflexivity.
Qed.

(** The last piece of a split holds no newline, so splitting it again gives
    just itself. *)
Lemma split_nl_last (a : jstr) :
  split_nl (List.last (split_nl a) []) = [List.last (split_nl a) []].
Proof.
  induction a as [|c a IH]; [reflexivity|].
  simpl. pose proof (split_nl_nonempty a) as Hne.
  destruct (N.eqb c 10) eqn:Ec.
  - destruct (split_nl a) as [|p ps]; [contradiction|].
    destruct ps as [|q qs]; exact IH.
  - destruct (split_nl a) as [|p ps] eqn:Ea; [contradiction|].
    destruct ps as [|q qs].
    + simpl in *. rewrite Ec, IH. reflexivity.
    + exact IH.
Qed.

Lemma process_lines_app {S : Type} jp (oc : jstr -> S -> S * bool) ocp oe
    (l1 l2 : list jstr) (s : S) :
  process_lines jp oc ocp oe (l1 ++ l2) s
  = match process_lines jp oc ocp oe l1 s with
    | Continue s' => process_lines jp oc ocp oe l2 s'
    | Return s' => Return s'
    end.
Proof.
  revert s. induction l1 as [|l l1 IH]; intros s; [reflexivity|].
  simpl. destruct (process_line jp oc ocp oe l s); [apply IH|reflexivity].
Qed.

(** Whatever the boundaries of the reads, the loop runs the line handler on
    the complete lines of the whole body, in order. *)
Lemma read_loop_values {S : Type} jp (oc : jstr -> S -> S * bool) ocp oe
    (vs : list jstr) (buf : jstr) (s : S) :
  split_nl buf = [buf] ->
  read_loop jp oc ocp oe (map RValue vs) buf s
  = (flow_state (process_lines jp oc ocp oe (complete_lines (buf ++ List.concat vs)) s), false).
Proof.
  revert buf s. induction vs as [|v vs IH]; intros buf s Hbuf.
  - simpl. unfold complete_lines. rewrite app_nil_r, Hbuf. reflexivity.
  - cbn [map read_loop List.concat].
    unfold complete_lines.
    rewrite (app_assoc buf v (List.concat vs)), (split_nl_app (buf ++ v) (List.concat vs)),
      removelast_app by apply split_nl_nonempty.
    rewrite process_lines_app.
    destruct (process_lines jp oc ocp oe (removelast (split_nl (buf ++ v))) s) as [s'|s'].
    + rewrite IH by apply split_nl_last. reflexivity.
    + reflexivity.
Qed.

(** *** The recorded callback sequence *)

Definition rchunk (c : jstr) := record (fun _ => false) (CChunk c).
Definition rcomplete (m : option jstr) := record (fun _ => false) (CComplete m).
Definition rerror (e : stream_error) := record (fun _ => false) (CError e).

(** [t'] extends [t] by chunk calls only, or by chunk calls and one
    terminal call. *)
Definition extends_open (t t' : list call) : Prop :=
  exists cs, t' = t ++ map CChunk cs.
Definition extends_closed (t t' : list call) : Prop :=
  exists cs x, t' = t ++ map CChunk cs ++ [x] /\ is_chunk_call x = false.

Lemma process_line_rec jp (line : jstr) (t : list call) :
  match process_line jp rchunk rcomplete rerror line t with
  | Continue t' => extends_open t t'
  | Return t' => extends_closed t t'
  end.
Proof.
  unfold process_line.
  destruct (startsWith (js "data: ") line); [|exists []; rewrite app_nil_r; reflexivity].
  destruct (jp (drop 6 line)) as [d|]; [|exists []; rewrite app_nil_r; reflexivity].
  destruct (truthy (sd_error d)).
  - simpl. exists [], (CError (ServerError (default [] (sd_error d)))). split; reflexivity.
  - destruct (truthy (sd_chunk d)); simpl; destruct (sd_done d); simpl.
    + exists [default [] (sd_chunk d)], (CComplete (sd_message_id d)).
      rewrite <- app_assoc. split; reflexivity.
    + exists [default [] (sd_chunk d)]. reflexivity.
    + exists [], (CComplete (sd_message_id d)). split; reflexivity.
    + exists []. rewrite app_nil_r. reflexivity.
Qed.

Lemma process_lines_rec jp (lines : list jstr) (t : list call) :
  match process_lines jp rchunk rcomplete rerror lines t with
  | Continue t' => extends_open t t'
  | Return t' => extends_closed t t'
  end.
Proof.
  revert t. induction lines as [|l ls IH]; intros t.
  - exists []. rewrite app_nil_r. reflexivity.
  - simpl. pose proof (process_line_rec jp l t) as Hl.
    destruct (process_line jp rchunk rcomplete rerror l t) as [t1|t1].
    + destruct Hl as [cs1 ->]. specialize (IH (t ++ map CChunk cs1)).
      destruct (process_lines jp rchunk rcomplete rerror ls (t ++ map CChunk cs1)) as [t2|t2].
      * destruct IH as [cs2 ->]. exists (cs1 ++ cs2). rewrite map_app, app_assoc. reflexivity.
      * destruct IH as [cs2 [x [-> Hx]]]. exists (cs1 ++ cs2), x.
        rewrite map_app, !app_assoc. split; [reflexivity|exact Hx].
    + exact Hl.
Qed.

Lemma read_loop_rec jp (reads : list read_result) (buf : jstr) (t : list call) :
  extends_open t (fst (read_loop jp rchunk rcomplete rerror reads buf t))
  \/ extends_closed t (fst (read_loop jp rchunk rcomplete rerror reads buf t)).
Proof.
  revert buf t. induction reads as [|r rs IH]; intros buf t.
  - left. exists []. rewrite app_nil_r. reflexivity.
  - destruct r as [v|m]; simpl.
    + pose proof (process_lines_rec jp (removelast (split_nl (buf ++ v))) t) as Hl.
      destruct (process_lines jp rchunk rcomplete rerror (removelast (split_nl (buf ++ v))) t)
        as [t1|t1].
      * destruct Hl as [cs1 ->].
        destruct (IH (List.last (split_nl (buf ++ v)) []) (t ++ map CChunk cs1))
          as [[cs2 H]|[cs2 [x [H Hx]]]]; rewrite H.
        -- left. exists (cs1 ++ cs2). rewrite map_app, app_assoc. reflexivity.
        -- right. exists (cs1 ++ cs2), x. rewrite map_app, !app_assoc. split; [reflexivity|exact Hx].
      * right. exact Hl.
    + right. exists [], (CError (NetworkError m)). split; reflexivity.
Qed.

(** C1 (as corrected): when the callbacks return normally, [streamMessage]
    calls [onChunk] zero or more times and then at most one terminal
    callback ([onComplete] or [onError]), nothing after it; and the calls are
    those of the complete lines of the body in order, however the body is
    split into reads. *)
Theorem streamMessage_callback_sequence (json_parse : jstr -> option sse_data)
    (resp : response) :
  (exists cs tail, trace json_parse resp = map CChunk cs ++ tail
     /\ (tail = [] \/ exists x, tail = [x] /\ is_chunk_call x = false))
  /\ (forall (status : jstr) (vs : list jstr),
        trace json_parse (Resp true status (map RValue vs))
        = flow_state (process_lines json_parse rchunk rcomplete rerror
                        (complete_lines (List.concat vs)) [])).
Proof.
  split.
  - unfold trace, trace_with. fold rchunk rcomplete rerror.
    destruct resp as [m|ok status reads]; simpl.
    + exists [], [CError (NetworkError m)]. split; [reflexivity|right; eexists; split; reflexivity].
    + destruct ok; simpl.
      * destruct (read_loop_rec json_parse reads [] []) as [[cs H]|[cs [x [H Hx]]]];
          rewrite H; simpl.
        -- exists cs, []. rewrite app_nil_r. split; [reflexivity|left; reflexivity].
        -- exists cs, [x]. split; [reflexivity|right; exists x; split; [reflexivity|exact Hx]].
      * exists [], [CError (HttpError status)].
        split; [reflexivity|right; eexists; split; reflexivity].
  - intros status vs. unfold trace, trace_with. fold rchunk rcomplete rerror. simpl.
    rewrite read_loop_values by reflexivity. reflexivity.
Qed.

(** C1 counterexample: a body that closes after a chunk line, without a
    [done] or [error] line, ends with no terminal callback at all. *)
Lemma streamMessage_no_terminal_counterexample :
  trace demo_parse (Resp true (js "200") [RValue (sse_line json_chunk_a)]) = [CChunk (js "a")]
  /\ ~ (exists cs x, trace demo_parse (Resp true (js "200") [RValue (sse_line json_chunk_a)])
                     = map CChunk cs ++ [x] /\ is_chunk_call x = false).
Proof.
  assert (Ht : trace demo_parse (Resp true (js "200") [RValue (sse_line json_chunk_a)])
               = [CChunk (js "a")]) by (vm_compute; reflexivity).
  split; [exact Ht|]. rewrite Ht.
  intros (cs & x & H & Hx). destruct cs as [|c cs]; simpl in H.
  - injection H as <-. discriminate.
  - injection H as _ H. destruct (map CChunk cs); discriminate.
Qed.

(** The [try] around a line also catches a throw of a callback: when
    [onComplete] throws, the loop goes on and a repeated [done] line calls it
    again. *)
Lemma streamMessage_continues_after_throwing_complete :
  trace_with (fun c => match c with CComplete _ => true | _ => false end) demo_parse
    (Resp true (js "200") [RValue (sse_line json_done_m1 ++ sse_line json_done_m1)])
  = [CComplete (Some (js "m1")); CComplete (Some (js "m1"))].
Proof. vm_compute. reflexivity. Qed.

End StreamProofs.

(** ** The conversation controller *)

Module UIProofs.
Import Stream UI.

(** *** Well-formed controller states

    Element ids are below [next_id], only message divs carry the
    [streaming-text] id, and the ids a pending send refers to were handed
    out already. *)

Definition el_ok (n : N) (e : element) : Prop :=
  (el_id e < n)%N /\ (el_text_id e = true -> has_chat_message_class e = true).

Definition ui_wf (st : ui_state) : Prop :=
  Forall (el_ok (next_id st)) (dom st)
  /\ (forall ctx, pending st = Some ctx ->
        (ctx_typing ctx < next_id st)%N
        /\ (forall r, ctx_response ctx = Some r -> (r < next_id st)%N)).





















Lemma init_wf (tid : option jstr) : ui_wf (init_ui tid).
Proof. split; [constructor|discriminate]. Qed.

(** *** Runs *)

Lemma run_cons_fst (st : ui_state) (ev : ui_event) (evs : list ui_event) :
  fst (run st (ev :: evs)) = fst (run (fst (ui_step st ev)) evs).
Proof. simpl. destruct (ui_step st ev) as [st1 b]. simpl. destruct (run st1 evs). reflexivity. Qed.

Lemma run_cons_snd (st : ui_state) (ev : ui_event) (evs : list ui_event) :
  snd (run st (ev :: evs))
  = ((if snd (ui_step st ev) then 1 else 0) + snd (run (fst (ui_step st ev)) evs))%nat.
Proof. simpl. destruct (ui_step st ev) as [st1 b]. simpl. destruct (run st1 evs). reflexivity. Qed.

Lemma run_app_fst (st : ui_state) (evs1 evs2 : list ui_event) :
  fst (run st (evs1 ++ evs2)) = fst (run (fst (run st evs1)) evs2).
Proof.
  revert st. induction evs1 as [|ev evs IH]; intros st; [reflexivity|].
  simpl app. rewrite !run_cons_fst. apply IH.
Qed.

(** The [finally] of a send is the only code that clears [isStreaming]. *)
Definition is_finish (ev : ui_event) : bool :=
  match ev with EFinish _ => true | _ => false end.

(** *** The log as [document.getElementById] sees it *)

Definition id_not (id : N) (e : element) : Prop := el_id e <> id.

Lemma find_el_absent (id : N) (d : list element) :
  Forall (id_not id) d -> find_el id d = None.
Proof.
  induction 1 as [|e d He _ IH]; [reflexivity|].
  unfold find_el in *. simpl. unfold id_not in He.
  destruct (N.eqb_spec (el_id e) id); [contradiction|exact IH].
Qed.





Lemma filter_id_not (id : N) (d : list element) :
  Forall (id_not id) d -> List.filter (fun e => negb (N.eqb (el_id e) id)) d = d.
Proof.
  induction 1 as [|e d He _ IH]; [reflexivity|]. simpl. unfold id_not in He.
  destruct (N.eqb_spec (el_id e) id); [contradiction|]. simpl. rewrite IH. reflexivity.
Qed.

(** *** What the callbacks and the loads leave alone *)

(** The controller fields a send's callbacks never write. *)
Definition frame (st : ui_state) : option jstr * bool * bool :=
  (currentThreadId st, isStreaming st, send_disabled st).

Lemma updateStreamingMessage_frame (id : N) (c : jstr) (st : ui_state) :
  frame (fst (updateStreamingMessage id c st)) = frame st.
Proof.
  unfold updateStreamingMessage. destruct (find_el id (dom st)) as [e|]; [|reflexivity].
  destruct (el_text_id e); reflexivity.
Qed.

Lemma onChunk_frame (c : jstr) (st : ui_state) : frame (fst (onChunk c st)) = frame st.
Proof.
  unfold onChunk. destruct (pending st) as [ctx|]; [|reflexivity].
  destruct (ctx_first ctx).
  - destruct (addMessage _ _ _) as [st1 r] eqn:E. rewrite updateStreamingMessage_frame.
    unfold addMessage in E. injection E as <- _. reflexivity.
  - destruct (ctx_response ctx); [apply updateStreamingMessage_frame|reflexivity].
Qed.

Lemma onComplete_frame (m : option jstr) (st : ui_state) : frame (fst (onComplete m st)) = frame st.
Proof.
  unfold onComplete, completeStreamingMessage. destruct (pending st) as [ctx|]; [|reflexivity].
  destruct (ctx_response ctx) as [r|]; [|reflexivity].
  destruct (find_el r (dom st)); reflexivity.
Qed.

Lemma onError_frame (err : stream_error) (st : ui_state) : frame (fst (onError err st)) = frame st.
Proof.
  unfold onError, handleStreamingError. destruct (pending st) as [ctx|]; [|reflexivity].
  destruct (ctx_response ctx) as [r|]; [|reflexivity].
  destruct (find_el r _); reflexivity.
Qed.

Lemma sendMessage_busy (st : ui_state) : isStreaming st = true -> sendMessage st = (st, None).
Proof.
  intros Hs. unfold sendMessage. rewrite Hs.
  destruct (currentThreadId st); [|reflexivity]. rewrite andb_false_r. reflexivity.
Qed.

Lemma fold_addMessage_frame (ms : list message) (s0 : ui_state) :
  frame (fold_left (fun s m => fst (addMessage m false s)) ms s0) = frame s0
  /\ pending (fold_left (fun s m => fst (addMessage m false s)) ms s0) = pending s0.
Proof.
  revert s0. induction ms as [|m ms IH]; intros s0; [auto|].
  cbn [fold_left]. destruct (IH (fst (addMessage m false s0))) as [H1 H2].
  rewrite H1, H2. split; reflexivity.
Qed.

(** Loading a conversation writes [currentThreadId] when it starts, and
    nothing of the send in flight when its history arrives. *)
Lemma loadThreadDone_frame (msgs : list message) (st : ui_state) :
  frame (loadThreadDone msgs st) = frame st /\ pending (loadThreadDone msgs st) = pending st.
Proof.
  unfold loadThreadDone, renderMessages, clearStatus. simpl.
  destruct msgs as [|m ms]; [split; reflexivity|].
  destruct (fold_addMessage_frame (m :: ms)
    (set_dom (List.filter (fun e => negb (has_chat_message_class e)) (dom st))
       (set_welcome false (set_messages (m :: ms) st)))) as [H1 H2].
  simpl in H1, H2 |- *. unfold frame in *. simpl in *. rewrite H1, H2. split; reflexivity.
Qed.

(** While a send is in flight, every event other than its [finally] keeps
    [isStreaming] and the disabled send button, and starts no stream. *)
Lemma step_busy (st : ui_state) (ev : ui_event) :
  isStreaming st = true -> is_finish ev = false ->
  isStreaming (fst (ui_step st ev)) = true /\ snd (ui_step st ev) = false
  /\ (send_disabled st = true -> send_disabled (fst (ui_step st ev)) = true).
Proof.
  intros Hs Hf.
  assert (Hfr : forall st', frame st' = frame st ->
            isStreaming st' = true /\ false = false
            /\ (send_disabled st = true -> send_disabled st' = true)).
  { intros st' H. unfold frame in H. injection H as _ H1 H2. rewrite H1, H2. auto. }
  destruct ev as [v| |c|mid|err|r|tid|msgs|m]; simpl; try discriminate.
  - rewrite Hs, orb_true_r. auto.
  - rewrite sendMessage_busy by exact Hs. auto.
  - apply Hfr, onChunk_frame.
  - apply Hfr, onComplete_frame.
  - apply Hfr, onError_frame.
  - unfold loadThreadStart, showChatLoading. simpl. auto.
  - apply Hfr, loadThreadDone_frame.
  - unfold loadThreadFail, showStatus. simpl. auto.
Qed.

Lemma run_busy (st : ui_state) (evs : list ui_event) :
  isStreaming st = true -> forallb (fun e => negb (is_finish e)) evs = true ->
  isStreaming (fst (run st evs)) = true /\ snd (run st evs) = 0%nat
  /\ (send_disabled st = true -> send_disabled (fst (run st evs)) = true).
Proof.
  revert st. induction evs as [|ev evs IH]; intros st Hs Hf; [auto|].
  simpl in Hf. apply andb_prop in Hf as [Hf1 Hf2]. apply negb_true_iff in Hf1.
  destruct (step_busy st ev Hs Hf1) as (Hs1 & Hb & Hd1).
  rewrite run_cons_fst, run_cons_snd, Hb.
  destruct (IH _ Hs1 Hf2) as (H1 & H2 & H3). auto.
Qed.

(** The synchronous part of an accepted send. *)
Lemma sendMessage_accept (st : ui_state) (tid : jstr) :
  trim (input_value st) <> [] -> currentThreadId st = Some tid -> tid <> [] ->
  isStreaming st = false ->
  sendMessage st =
  (mk_ui (Some tid) true true [] (messages st)
     (dom st ++ [mk_el (next_id st) (MsgEl User) false false [PFormatted (trim (input_value st))];
                 mk_el (next_id st + 1) TypingEl false false []])
     false (status st) (next_id st + 1 + 1) (Some (mk_ctx tid (next_id st + 1) None true))
     (thread_reloads st),
   Some (tid, trim (input_value st))).
Proof.
  intros Hm Hc Ht Hs. unfold sendMessage. rewrite Hc, Hs, bool_decide_false by exact Hm.
  destruct tid as [|u tid]; [congruence|]. cbn. rewrite Hc, <- app_assoc. reflexivity.
Qed.

Lemma sendMessage_started (st : ui_state) :
  snd (sendMessage st) <> None ->
  isStreaming (fst (sendMessage st)) = true /\ send_disabled (fst (sendMessage st)) = true.
Proof.
  unfold sendMessage. destruct (currentThreadId st) as [tid|]; [|simpl; congruence].
  destruct (_ && _ && _); [|simpl; congruence]. intros _. cbn. auto.
Qed.

(** *** One send at a time *)

(** C3: while [isStreaming] is set, [sendMessage] returns at once and
    leaves the controller state as it was, without a stream request; so in
    any run of events in which no send reaches its [finally], at most one
    stream is started, and none at all once one is in flight. *)
Theorem at_most_one_generation (st : ui_state) (evs : list ui_event) :
  forallb (fun e => negb (is_finish e)) evs = true ->
  (snd (run st evs) <= 1)%nat
  /\ (isStreaming st = true -> sendMessage st = (st, None) /\ snd (run st evs) = 0%nat).
Proof.
  intros Hf. split.
  - revert st. induction evs as [|ev evs IH]; intros st; [simpl; lia|].
    simpl in Hf. apply andb_prop in Hf as [Hf1 Hf2].
    rewrite run_cons_snd.
    destruct (snd (ui_step st ev)) eqn:Hb; [|apply IH, Hf2].
    assert (Hs : isStreaming (fst (ui_step st ev)) = true).
    { destruct ev; simpl in Hb; try discriminate.
      simpl. destruct (sendMessage st) as [st1 req] eqn:E. simpl in Hb |- *.
      destruct req as [q|]; [|discriminate].
      pose proof (sendMessage_started st) as H. rewrite E in H. apply H. simpl. discriminate. }
    destruct (run_busy _ evs Hs Hf2) as (_ & H0 & _). rewrite H0. lia.
  - intros Hs. split; [apply sendMessage_busy, Hs|]. apply (run_busy st evs Hs Hf).
Qed.

Lemma at_most_one_generation_witness :
  forallb (fun e => negb (is_finish e)) [ESend; EInput (js "again"); ESend] = true
  /\ (snd (run (typed (js "t1") (js "hi")) [ESend; EInput (js "again"); ESend]) <= 1)%nat
  /\ (isStreaming (typed (js "t1") (js "hi")) = true ->
      sendMessage (typed (js "t1") (js "hi")) = (typed (js "t1") (js "hi"), None)
      /\ snd (run (typed (js "t1") (js "hi")) [ESend; EInput (js "again"); ESend]) = 0%nat).
Proof.
  split; [reflexivity|].
  apply (at_most_one_generation (typed (js "t1") (js "hi")) [ESend; EInput (js "again"); ESend]).
  reflexivity.
Defined.

(** *** The life cycle of a send *)

(** C5: a send of a non-empty message on a selected thread, while no
    stream is active, requests the stream for that thread and message,
    appends the user message (then the typing indicator) to the log and sets
    [isStreaming] and the disabled send button before any stream event; both
    stay set through every event up to the send's [finally], which clears
    both, whatever the stream does. *)
Theorem send_lifecycle (st : ui_state) (tid : jstr) :
  trim (input_value st) <> [] -> currentThreadId st = Some tid -> tid <> [] ->
  isStreaming st = false ->
  snd (sendMessage st) = Some (tid, trim (input_value st))
  /\ dom (fst (sendMessage st))
     = dom st ++ [mk_el (next_id st) (MsgEl User) false false [PFormatted (trim (input_value st))];
                  mk_el (next_id st + 1) TypingEl false false []]
  /\ isStreaming (fst (sendMessage st)) = true /\ send_disabled (fst (sendMessage st)) = true
  /\ (forall evs, forallb (fun e => negb (is_finish e)) evs = true ->
        isStreaming (fst (run (fst (sendMessage st)) evs)) = true
        /\ send_disabled (fst (run (fst (sendMessage st)) evs)) = true)
  /\ (forall evs r, forallb (fun e => negb (is_finish e)) evs = true ->
        isStreaming (finishSend r (fst (run (fst (sendMessage st)) evs))) = false
        /\ send_disabled (finishSend r (fst (run (fst (sendMessage st)) evs))) = false)
  /\ (forall json_parse resp,
        isStreaming (send_and_stream json_parse resp st) = false
        /\ send_disabled (send_and_stream json_parse resp st) = false).
Proof.
  intros Hm Hc Ht Hs.
  pose proof (sendMessage_accept st tid Hm Hc Ht Hs) as E.
  split; [rewrite E; reflexivity|]. split; [rewrite E; reflexivity|].
  split; [rewrite E; reflexivity|]. split; [rewrite E; reflexivity|].
  split; [|split].
  - intros evs Hf.
    destruct (run_busy (fst (sendMessage st)) evs) as (H1 & _ & H3);
      [rewrite E; reflexivity|exact Hf|].
    split; [exact H1|apply H3; rewrite E; reflexivity].
  - intros evs r _. split; reflexivity.
  - intros jp resp. unfold send_and_stream. rewrite E.
    destruct (streamMessage _ _ _ _ _ _) as [st2 rej]. split; reflexivity.
Qed.

Lemma send_lifecycle_witness :
  trim (input_value (typed (js "t1") (js "hi"))) <> []
  /\ currentThreadId (typed (js "t1") (js "hi")) = Some (js "t1")
  /\ js "t1" <> []
  /\ isStreaming (typed (js "t1") (js "hi")) = false
  /\ snd (sendMessage (typed (js "t1") (js "hi"))) = Some (js "t1", js "hi").
Proof.
  split; [vm_compute; discriminate|]. split; [reflexivity|].
  split; [vm_compute; discriminate|]. split; [reflexivity|].
  apply (send_lifecycle (typed (js "t1") (js "hi")) (js "t1"));
    [vm_compute; discriminate|reflexivity|vm_compute; discriminate|reflexivity].
Defined.

(** *** Chunks of a send *)

















(** *** Switching threads during a send *)















(** *** An error event after a thread switch *)

(** The same server error event, at the same point of a send's stream, with
    and without another thread loaded after the first chunk. Without the
    switch the assistant message shows the error notice and the status area
    the error. With it, [handleStreamingError] finds no message element and
    throws; the inner [catch] of [streamMessage] swallows the throw and the
    loop goes on, so no error is shown anywhere. The [finally] re-enables the
    send button either way. *)
Lemma streaming_error_lost_after_switch :
  let err_body := Resp true (js "200") [RValue (sse_line json_error_boom)] in
  let st_same := fst (run (typed (js "t1") (js "hi")) [ESend; EChunk (js "a")]) in
  let st_sw := fst (run (typed (js "t1") (js "hi"))
                      [ESend; EChunk (js "a"); ELoadStart (js "t2");
                       ELoadDone [mk_message User (js "q")]]) in
  status (finishSend None (fst (streamMessage demo_parse onChunk onComplete onError err_body st_same)))
    = Some (chat_error (js "boom"))
  /\ map el_text (dom (fst (streamMessage demo_parse onChunk onComplete onError err_body st_same)))
     = [[PFormatted (js "hi")]; [PRaw (error_notice (ServerError (js "boom")))]]
  /\ snd (onError (ServerError (js "boom")) st_sw) = true
  /\ status (finishSend None (fst (streamMessage demo_parse onChunk onComplete onError err_body st_sw)))
     = None
  /\ snd (streamMessage demo_parse onChunk onComplete onError err_body st_sw) = false
  /\ send_disabled (finishSend None (fst (streamMessage demo_parse onChunk onComplete onError err_body st_sw)))
     = false.
Proof. vm_compute. repeat split. Qed.

End UIProofs.

(** ** ValidationUtils: identifiers, keywords, titles, file names *)

Module ValidationProofs.
Import Validation EscapeProofs.

(** Facts about the code units below 128, checked by evaluation. *)
Lemma ascii_check (P : N -> bool) :
  forallb (fun k => P (N.of_nat k)) (seq 0 128) = true ->
  forall c, (c < 128)%N -> P c = true.
Proof.
  intros H c Hc. rewrite forallb_forall in H.
  specialize (H (N.to_nat c)). rewrite N2Nat.id in H. apply H.
  apply in_seq. lia.
Qed.

(** The code units an accepted arXiv identifier is made of. *)
Definition id_unit (c : N) : bool :=
  is_digit c || (c =? 46)%N || (c =? 118)%N || is_archive_unit c || (c =? 47)%N.

Lemma id_unit_small c : id_unit c = true -> (c < 128)%N.
Proof.
  unfold id_unit, is_archive_unit, is_digit, is_lower.
  repeat rewrite ?orb_true_iff, ?andb_true_iff, ?N.leb_le, ?N.eqb_eq. lia.
Qed.

Lemma id_unit_plain c :
  id_unit c = true -> is_js_space c = false /\ esc_unit c = [c].
Proof.
  intros H. pose proof (id_unit_small c H) as Hs.
  pose proof (ascii_check (fun c => implb (id_unit c)
                   (negb (is_js_space c)
                   && if @list_eq_dec N N.eq_dec (esc_unit c) [c] then true else false))
                ltac:(vm_compute; reflexivity) c Hs) as Hc.
  simpl in Hc. rewrite H in Hc. simpl in Hc.
  apply andb_true_iff in Hc as [H1 H2].
  apply negb_true_iff in H1.
  destruct (@list_eq_dec N N.eq_dec (esc_unit c) [c]); [auto|discriminate].
Qed.

Lemma all_digits_units s : all_digits s = true -> Forall (fun c => id_unit c = true) s.
Proof.
  unfold all_digits. rewrite forallb_forall, List.Forall_forall.
  intros H c Hc. unfold id_unit. rewrite (H c Hc). reflexivity.
Qed.

Lemma version_suffix_units s : version_suffix s = true -> Forall (fun c => id_unit c = true) s.
Proof.
  destruct s as [|v ds]; [constructor|]. simpl.
  intros H. apply andb_true_iff in H as [Hv Hd]. apply N.eqb_eq in Hv. subst v.
  constructor; [reflexivity|]. destruct ds; [discriminate|]. apply all_digits_units, Hd.
Qed.

Lemma new_format_units s : new_format s = true -> Forall (fun c => id_unit c = true) s.
Proof.
  destruct s as [|d1 [|d2 [|d3 [|d4 [|dot rest]]]]]; try discriminate.
  intros H. unfold new_format in H.
  apply andb_true_iff in H as [H Hr]. apply andb_true_iff in H as [Hd Hdot].
  apply N.eqb_eq in Hdot. subst dot.
  change (d1 :: d2 :: d3 :: d4 :: 46%N :: rest) with ([d1; d2; d3; d4] ++ 46%N :: rest).
  apply Forall_app. split; [apply all_digits_units, Hd|].
  constructor; [reflexivity|].
  apply orb_true_iff in Hr as [Hr|Hr]; rewrite !andb_true_iff in Hr;
    destruct Hr as [[_ Ha] Hv].
  - rewrite <- (take_drop 4 rest). apply Forall_app.
    split; [apply all_digits_units, Ha | apply version_suffix_units, Hv].
  - rewrite <- (take_drop 5 rest). apply Forall_app.
    split; [apply all_digits_units, Ha | apply version_suffix_units, Hv].
Qed.

Lemma old_format_units s : old_format s = true -> Forall (fun c => id_unit c = true) s.
Proof.
  unfold old_format. repeat rewrite andb_true_iff.
  intros [[[Hn Ha] Hs] Hd]. apply Nat.leb_le in Hn. apply N.eqb_eq in Hs.
  apply Forall_lookup. intros i c Hi.
  pose proof (lookup_lt_Some _ _ _ Hi) as Hlt.
  destruct (Nat.lt_trichotomy i (length s - 8)) as [H|[H|H]].
  - rewrite forallb_forall in Ha.
    assert (Hin : In c (take (length s - 8) s)).
    { apply list_elem_of_In. apply list_elem_of_lookup_2 with i.
      rewrite lookup_take_lt by exact H. exact Hi. }
    specialize (Ha c Hin). unfold id_unit. rewrite Ha. rewrite !orb_true_r. reflexivity.
  - subst i. rewrite nth_lookup, Hi in Hs. simpl in Hs. subst c. reflexivity.
  - apply all_digits_units in Hd. rewrite Forall_lookup in Hd.
    apply (Hd (i - (length s - 7))). rewrite lookup_drop.
    replace (length s - 7 + (i - (length s - 7))) with i by lia. exact Hi.
Qed.

Lemma trim_start_plain s : (match s with c :: _ => is_js_space c = false | [] => True end) ->
  trim_start s = s.
Proof. destruct s as [|c r]; simpl; [reflexivity|]. intros ->. reflexivity. Qed.

Lemma trim_plain s : Forall (fun c => is_js_space c = false) s -> trim s = s.
Proof.
  intros H. unfold trim.
  rewrite (trim_start_plain s) by (destruct s; [exact I|inversion H; assumption]).
  rewrite (trim_start_plain (rev s)).
  - apply rev_involutive.
  - destruct (rev s) as [|c r] eqn:E; [exact I|].
    rewrite List.Forall_forall in H.
    assert (Hin : In c (rev s)) by (rewrite E; left; reflexivity).
    apply in_rev in Hin. exact (H c Hin).
Qed.

Lemma escapeHtml_plain s : Forall (fun c => esc_unit c = [c]) s -> escapeHtml s = s.
Proof.
  induction 1 as [|c s Hc _ IH]; [reflexivity|].
  rewrite escapeHtml_cons, Hc, IH. reflexivity.
Qed.

(** The units of an accepted identifier, by the classes of the source. *)
Lemma id_unit_chars c :
  id_unit c = true ->
  is_digit c || is_lower c || (c =? 46)%N || (c =? 45)%N || (c =? 47)%N = true.
Proof.
  intros H. pose proof (id_unit_small c H) as Hs.
  pose proof (ascii_check (fun c => implb (id_unit c)
                 (is_digit c || is_lower c || (c =? 46)%N || (c =? 45)%N || (c =? 47)%N))
                ltac:(vm_compute; reflexivity) c Hs) as Hc.
  simpl in Hc. rewrite H in Hc. exact Hc.
Qed.

(** X1: an accepted arXiv identifier is returned trimmed; it is made of
    digits, lower-case letters, [.], [-] and [/] only, so [escapeHtml]
    leaves it as it is, and validating it again gives the same result. *)
Theorem validateArxivId_accepted_plain (arxivId : jstr) :
  v_valid (validateArxivId arxivId) = true ->
  Forall (fun c => is_digit c || is_lower c || (c =? 46)%N || (c =? 45)%N || (c =? 47)%N = true)
    (v_sanitized (validateArxivId arxivId))
  /\ escapeHtml (v_sanitized (validateArxivId arxivId)) = v_sanitized (validateArxivId arxivId)
  /\ validateArxivId (v_sanitized (validateArxivId arxivId)) = validateArxivId arxivId.
Proof.
  destruct arxivId as [|a0 rest]; [discriminate|].
  cbn [validateArxivId v_valid v_sanitized].
  remember (trim (a0 :: rest)) as t eqn:Et. intros Hv.
  assert (Hu : Forall (fun c => id_unit c = true) t).
  { apply orb_true_iff in Hv as [H|H];
      [apply new_format_units, H | apply old_format_units, H]. }
  assert (Hp : Forall (fun c => is_js_space c = false /\ esc_unit c = [c]) t)
    by (eapply Forall_impl; [exact Hu|]; intros c; apply id_unit_plain).
  split; [eapply Forall_impl; [exact Hu|]; apply id_unit_chars|]. split.
  - apply escapeHtml_plain. eapply Forall_impl; [exact Hp|]. intros ? [? ?]; assumption.
  - assert (Ht : trim t = t)
      by (apply trim_plain; eapply Forall_impl; [exact Hp|]; intros ? [? ?]; assumption).
    destruct t as [|c r]; [discriminate|].
    cbn [validateArxivId]. rewrite Ht. reflexivity.
Qed.

(** Witness of [validateArxivId_accepted_plain]: the id 2301.12345v2 is accepted. *)
Lemma validateArxivId_accepted_plain_witness :
  v_valid (validateArxivId (js "2301.12345v2")) = true
  /\ escapeHtml (v_sanitized (validateArxivId (js "2301.12345v2")))
     = v_sanitized (validateArxivId (js "2301.12345v2")).
Proof.
  split; [vm_compute; reflexivity|].
  apply (proj1 (proj2 (validateArxivId_accepted_plain (js "2301.12345v2")
                         ltac:(vm_compute; reflexivity)))).
Defined.

(** X2: an accepted keyword passed none of the four pattern tests; its
    sanitized form has at most 100 code units and no [<], [>], apostrophe
    or double quote. *)
Theorem validateKeyword_accepted (keyword : jstr) :
  v_valid (validateKeyword keyword) = true ->
  v_error (validateKeyword keyword) = None
  /\ dangerous (trim keyword) = false
  /\ (length (v_sanitized (validateKeyword keyword)) <= 100)%nat
  /\ Forall (fun c => is_angle_or_quote c = false) (v_sanitized (validateKeyword keyword)).
Proof.
  destruct keyword as [|k0 rest]; [discriminate|].
  cbn [validateKeyword].
  destruct (Nat.eqb (length (trim (k0 :: rest))) 0); [discriminate|].
  destruct (Nat.ltb 100 (length (trim (k0 :: rest)))) eqn:Hl; [discriminate|].
  destruct (dangerous (trim (k0 :: rest))) eqn:Hd; [discriminate|].
  intros _. cbn [v_error v_sanitized]. apply Nat.ltb_ge in Hl.
  split; [reflexivity|]. split; [reflexivity|]. split.
  - pose proof (List.filter_length_le (fun c => negb (is_angle_or_quote c))
                  (trim (k0 :: rest))). lia.
  - apply List.Forall_forall. intros c Hc. apply filter_In in Hc as [_ Hc].
    apply negb_true_iff, Hc.
Qed.

(** Witness of [validateKeyword_accepted]: the keyword quantum is accepted. *)
Lemma validateKeyword_accepted_witness :
  v_valid (validateKeyword (js "quantum")) = true
  /\ v_error (validateKeyword (js "quantum")) = None.
Proof.
  split; [vm_compute; reflexivity|].
  apply (validateKeyword_accepted (js "quantum")). vm_compute. reflexivity.
Defined.

(** X3: the pattern tests run before the quotes are removed, so the
    sanitized form of an accepted keyword can contain a pattern the code
    rejects. *)
Theorem validateKeyword_sanitized_not_rechecked :
  exists keyword,
    v_valid (validateKeyword keyword) = true
    /\ dangerous (v_sanitized (validateKeyword keyword)) = true
    /\ v_valid (validateKeyword (v_sanitized (validateKeyword keyword))) = false.
Proof.
  exists (js "java'script:alert(1)"). vm_compute. repeat split.
Qed.

(** X4: a thread title is accepted exactly when its trimmed text has 1 to 200
    code units, and then [validateThreadTitle] returns what
    [validateChatMessage] returns. *)
Theorem validateThreadTitle_range (title : jstr) :
  (v_valid (validateThreadTitle title) = true <-> (1 <= length (trim title) <= 200)%nat)
  /\ (v_valid (validateThreadTitle title) = true ->
      validateThreadTitle title = validateChatMessage title).
Proof.
  assert (Hmax : (200 < MAX_CHAT_MESSAGE)%nat)
    by (apply Nat.ltb_lt; vm_compute; reflexivity).
  destruct title as [|t0 rest].
  - cbn. split; [split; [discriminate|intros [H _]; simpl in H; lia] | discriminate].
  - cbn [validateThreadTitle validateChatMessage].
    destruct (Nat.eqb (length (trim (t0 :: rest))) 0) eqn:H0.
    + apply Nat.eqb_eq in H0. rewrite H0. cbn. split; [split; [discriminate|lia] | discriminate].
    + apply Nat.eqb_neq in H0.
      destruct (Nat.ltb 200 (length (trim (t0 :: rest)))) eqn:H1.
      * apply Nat.ltb_lt in H1. cbn [v_valid]. split; [split; [discriminate|intros [Ha Hb]; lia] | discriminate].
      * apply Nat.ltb_ge in H1.
        assert (H2 : Nat.ltb MAX_CHAT_MESSAGE (length (trim (t0 :: rest))) = false)
          by (apply Nat.ltb_ge; lia).
        rewrite H2. cbn [v_valid]. split; [split; [intros _; lia|reflexivity] | reflexivity].
Qed.

Lemma collapse_space_forall (P : N -> Prop) (b : bool) (s : jstr) :
  Forall P s -> P 95%N ->
  Forall (fun c => P c /\ is_js_space c = false) (collapse_space b s).
Proof.
  intros Hs H95. revert b. induction Hs as [|c s Hc _ IH]; intros b; [constructor|].
  simpl. destruct (is_js_space c) eqn:E.
  - destruct b; [apply IH|]. constructor; [split; [exact H95|reflexivity]|apply IH].
  - constructor; [split; [exact Hc|exact E]|apply IH].
Qed.

(** X5: [sanitizeFilename] returns at most 255 code units, none of them a
    slash, a backslash, one of [<], [>], [:], double quote, [|], [?], [*],
    or white space. *)
Theorem sanitizeFilename_safe (filename : jstr) :
  (length (sanitizeFilename filename) <= 255)%nat
  /\ Forall (fun c => c <> 47%N /\ c <> 92%N /\ is_reserved c = false
                      /\ is_js_space c = false)
       (sanitizeFilename filename).
Proof.
  destruct filename as [|f0 rest].
  - cbn. split; [lia|].
    repeat constructor; try (intros H; discriminate H).
  - cbn [sanitizeFilename]. split; [apply firstn_le_length|].
    apply Forall_take.
    eapply Forall_impl.
    + apply (collapse_space_forall
               (fun c => c <> 47%N /\ c <> 92%N /\ is_reserved c = false)).
      * apply List.Forall_forall. intros c Hc.
        apply filter_In in Hc as [Hc Hr]. apply negb_true_iff in Hr.
        apply in_map_iff in Hc as [x [<- _]].
        unfold slash_to_underscore in *.
        destruct ((x =? 47)%N || (x =? 92)%N) eqn:E.
        -- repeat split; intros H; discriminate H.
        -- apply orb_false_iff in E as [E1 E2].
           apply N.eqb_neq in E1, E2. auto.
      * repeat split; intros H; discriminate H.
    + simpl. tauto.
Qed.

Lemma is_reserved_slash (c : N) : is_reserved (slash_to_underscore c) = is_reserved c.
Proof.
  unfold slash_to_underscore.
  destruct ((c =? 47)%N || (c =? 92)%N) eqn:E; [|reflexivity].
  apply orb_true_iff in E as [E|E]; apply N.eqb_eq in E; subst; reflexivity.
Qed.

Lemma filter_nil_iff {A} (p : A -> bool) (l : list A) :
  List.filter p l = [] <-> Forall (fun x => p x = false) l.
Proof.
  induction l as [|x l IH]; simpl; [split; constructor|].
  destruct (p x) eqn:E; split; intros H.
  - discriminate.
  - inversion H; congruence.
  - constructor; [exact E|apply IH, H].
  - apply IH. inversion H; assumption.
Qed.

(** X6: [sanitizeFilename] returns the empty string exactly for a non-empty
    name made only of the removed units [<], [>], [:], double quote, [|],
    [?] and [*]; the empty name gives [file]. *)
Theorem sanitizeFilename_empty_iff (filename : jstr) :
  (sanitizeFilename filename = [] <->
   filename <> [] /\ Forall (fun c => is_reserved c = true) filename)
  /\ sanitizeFilename [] = js "file".
Proof.
  split; [|reflexivity].
  destruct filename as [|f0 rest].
  - cbn. split; [discriminate|]. intros [H _]. congruence.
  - cbn [sanitizeFilename].
    transitivity (List.filter (fun c => negb (is_reserved c))
                    (map slash_to_underscore (f0 :: rest)) = []).
    + destruct (List.filter _ _) as [|c r]; [reflexivity|].
      simpl. destruct (is_js_space c); split; discriminate.
    + rewrite filter_nil_iff, Forall_map.
      split.
      * intros H. split; [discriminate|].
        eapply Forall_impl; [exact H|]. intros c. simpl.
        rewrite is_reserved_slash. apply negb_false_iff.
      * intros [_ H]. eapply Forall_impl; [exact H|]. intros c. simpl.
        rewrite is_reserved_slash. intros ->. reflexivity.
Qed.

End ValidationProofs.

(** ** checkRateLimit *)

Module RateLimitProofs.
Import RateLimit.

Lemma filter_length_mono {A} (p q : A -> bool) (l : list A) :
  (forall x, In x l -> p x = true -> q x = true) ->
  (length (List.filter p l) <= length (List.filter q l))%nat.
Proof.
  induction l as [|x l IH]; simpl; intros H; [lia|].
  destruct (p x) eqn:Ep.
  - rewrite (H x (or_introl eq_refl) Ep). simpl.
    apply le_n_S, IH. intros y Hy. apply H. right. exact Hy.
  - destruct (q x); simpl; [apply le_S|]; apply IH; intros y Hy; apply H; right; exact Hy.
Qed.

Lemma filter_filter_eq {A} (p q : A -> bool) (l : list A) :
  (forall x, p x = true -> q x = true) ->
  List.filter p (List.filter q l) = List.filter p l.
Proof.
  intros H. induction l as [|x l IH]; simpl; [reflexivity|].
  destruct (q x) eqn:Eq; simpl.
  - destruct (p x); rewrite IH; reflexivity.
  - destruct (p x) eqn:Ep; [rewrite (H x Ep) in Eq; discriminate|exact IH].
Qed.

Lemma min_list_in (l : list Z) (m : Z) : min_list l = Some m -> In m l.
Proof.
  revert m. induction l as [|x l IH]; simpl; intros m H; [discriminate|].
  destruct (min_list l) as [m'|] eqn:E.
  - injection H as <-. destruct (Z.min_spec x m') as [[_ ->]|[_ ->]];
      [left; reflexivity|right; apply IH; reflexivity].
  - injection H as <-. left. reflexivity.
Qed.

Lemma min_list_none (l : list Z) : min_list l = None -> l = [].
Proof. destruct l as [|x l]; simpl; [reflexivity|]. destruct (min_list l); discriminate. Qed.

(** X7: [checkRateLimit] writes only the key [rateLimit_<key>]; a refused
    call writes nothing, and the [resetIn] it reports is a positive number
    of milliseconds, or [Infinity] when [maxRequests] is at most 0. *)
Theorem checkRateLimit_writes (storage : gmap jstr stored) (key : jstr)
    (maxRequests timeWindow now : Z) :
  (forall k, k <> js "rateLimit_" ++ key ->
     fst (checkRateLimit storage key maxRequests timeWindow now) !! k = storage !! k)
  /\ (allowed (snd (checkRateLimit storage key maxRequests timeWindow now)) = false ->
      fst (checkRateLimit storage key maxRequests timeWindow now) = storage
      /\ match resetIn (snd (checkRateLimit storage key maxRequests timeWindow now)) with
         | RIn ms => (0 < ms)%Z
         | RInfinity => (maxRequests <= 0)%Z
         end).
Proof.
  unfold checkRateLimit.
  destruct (match storage !! (js "rateLimit_" ++ key) with
            | Some (SData r w) => (r, w) | _ => ([], now) end) as [requests windowStart].
  set (reqs := List.filter _ requests).
  destruct (Z.leb maxRequests (Z.of_nat (length reqs))) eqn:Hle; simpl.
  - split; [reflexivity|]. intros _. split; [reflexivity|].
    destruct (min_list reqs) as [m|] eqn:Em.
    + apply min_list_in in Em. unfold reqs in Em.
      apply filter_In in Em as [_ Hm]. apply Z.ltb_lt in Hm. lia.
    + apply min_list_none in Em. rewrite Em in Hle. apply Z.leb_le in Hle. simpl in Hle. lia.
  - split; [|discriminate]. intros k Hk. apply lookup_insert_ne. congruence.
Qed.

Lemma check_step (storage : gmap jstr stored) (key : jstr) (maxRequests timeWindow t : Z)
    (A : list Z) (last : Z) :
  (last <= t)%Z ->
  (forall u, (last <= u)%Z ->
     List.filter (fun a => Z.ltb (u - a) timeWindow) (stored_requests storage (js "rateLimit_" ++ key))
     = List.filter (fun a => Z.ltb (u - a) timeWindow) A) ->
  let '(storage1, r) := checkRateLimit storage key maxRequests timeWindow t in
  (allowed r = false /\ storage1 = storage)
  \/ (allowed r = true
      /\ (Z.of_nat (length (List.filter (fun a => Z.ltb (t - a) timeWindow) A)) < maxRequests)%Z
      /\ forall u, (t <= u)%Z ->
           List.filter (fun a => Z.ltb (u - a) timeWindow)
             (stored_requests storage1 (js "rateLimit_" ++ key))
           = List.filter (fun a => Z.ltb (u - a) timeWindow) (A ++ [t])).
Proof.
  intros Hlt Hinv. unfold checkRateLimit.
  assert (Hr : exists w0,
    match storage !! (js "rateLimit_" ++ key) with
    | Some (SData r w) => (r, w) | _ => ([], t) end
    = (stored_requests storage (js "rateLimit_" ++ key), w0)).
  { unfold stored_requests. change (@lookup jstr) with (@lookup (list N)).
    destruct (storage !! (js "rateLimit_" ++ key)) as [[r w|]|]; eexists; reflexivity. }
  destruct Hr as [w0 Hr]. rewrite Hr.
  set (r := stored_requests storage (js "rateLimit_" ++ key)) in *.
  assert (Ht : List.filter (fun a => Z.ltb (t - a) timeWindow) r
               = List.filter (fun a => Z.ltb (t - a) timeWindow) A) by (apply Hinv; exact Hlt).
  rewrite Ht.
  destruct (Z.leb maxRequests _) eqn:Hle.
  - left. split; reflexivity.
  - right. apply Z.leb_gt in Hle. split; [reflexivity|]. split; [exact Hle|].
    intros u Hu. unfold stored_requests. change (@lookup jstr) with (@lookup (list N)).
    rewrite lookup_insert_eq. simpl.
    rewrite !List.filter_app. rewrite <- Ht.
    rewrite filter_filter_eq by (intros a Ha; apply Z.ltb_lt in Ha; apply Z.ltb_lt; lia).
    rewrite Hinv by lia. reflexivity.
Qed.

Lemma window_step (timeWindow maxRequests t : Z) (A : list Z) :
  Forall (fun a => (a <= t)%Z) A ->
  (Z.of_nat (length (List.filter (fun a => Z.ltb (t - a) timeWindow) A)) < maxRequests)%Z ->
  (forall u, (Z.of_nat (in_window timeWindow u A) <= Z.max 0 maxRequests)%Z) ->
  forall u, (Z.of_nat (in_window timeWindow u (A ++ [t])) <= Z.max 0 maxRequests)%Z.
Proof.
  intros HA Hlt Hw u. unfold in_window in *.
  rewrite List.filter_app, length_app. simpl.
  destruct (Z.ltb (u - timeWindow) t && Z.leb t u) eqn:E.
  - apply andb_true_iff in E as [_ E]. apply Z.leb_le in E.
    assert (Hm : (length (List.filter (fun a => Z.ltb (u - timeWindow) a && Z.leb a u) A)
                  <= length (List.filter (fun a => Z.ltb (t - a) timeWindow) A))%nat).
    { apply filter_length_mono. intros x Hx Hp.
      rewrite List.Forall_forall in HA. specialize (HA x Hx).
      apply andb_true_iff in Hp as [Hp _]. apply Z.ltb_lt in Hp. apply Z.ltb_lt. lia. }
    simpl. lia.
  - simpl. rewrite Nat.add_0_r. apply Hw.
Qed.

Lemma allowed_times_cons (t : Z) (b : bool) (out : list (Z * bool)) :
  allowed_times ((t, b) :: out) = if b then t :: allowed_times out else allowed_times out.
Proof. unfold allowed_times. simpl. destruct b; reflexivity. Qed.

Lemma run_window (storage : gmap jstr stored) (key : jstr) (maxRequests timeWindow : Z)
    (times : list Z) (A : list Z) (last : Z) :
  StronglySorted Z.le times ->
  Forall (fun t => (last <= t)%Z) times ->
  Forall (fun a => (a <= last)%Z) A ->
  (forall u, (last <= u)%Z ->
     List.filter (fun a => Z.ltb (u - a) timeWindow) (stored_requests storage (js "rateLimit_" ++ key))
     = List.filter (fun a => Z.ltb (u - a) timeWindow) A) ->
  (forall u, (Z.of_nat (in_window timeWindow u A) <= Z.max 0 maxRequests)%Z) ->
  forall u, (Z.of_nat (in_window timeWindow u
    (A ++ allowed_times (snd (run_calls storage key maxRequests timeWindow times))))
    <= Z.max 0 maxRequests)%Z.
Proof.
  revert storage A last.
  induction times as [|t ts IH]; intros storage A last Hs Hl HA Hinv Hw.
  - simpl. rewrite app_nil_r. exact Hw.
  - inversion Hs as [|? ? Hs' Hts]; subst.
    inversion Hl as [|? ? Hlt Hl']; subst.
    pose proof (check_step storage key maxRequests timeWindow t A last Hlt Hinv) as Hc.
    simpl run_calls.
    destruct (checkRateLimit storage key maxRequests timeWindow t) as [s1 r].
    destruct (run_calls s1 key maxRequests timeWindow ts) as [s2 out] eqn:Er.
    simpl snd. rewrite allowed_times_cons.
    destruct Hc as [[Ha ->]|[Ha [Hcount Hinv1]]]; rewrite Ha.
    + change out with (snd (s2, out)). rewrite <- Er.
      apply (IH storage A last Hs'); auto.
    + change (A ++ t :: allowed_times out) with (A ++ [t] ++ allowed_times out).
      rewrite app_assoc. change out with (snd (s2, out)). rewrite <- Er.
      apply (IH s1 (A ++ [t]) t Hs' Hts).
      * apply Forall_app. split; [|constructor; [lia|constructor]].
        eapply Forall_impl; [exact HA|]. intros x; simpl. lia.
      * exact Hinv1.
      * apply window_step; [|exact Hcount|exact Hw].
        eapply Forall_impl; [exact HA|]. intros x; simpl. lia.
Qed.

(** X8: for integer [maxRequests] and [timeWindow], over successive calls
    with one key at non-decreasing integer times, from a storage holding no
    request time for that key, no window
    [(u - timeWindow, u]] contains more than [maxRequests] allowed calls
    (none when [maxRequests] is at most 0). *)
Theorem checkRateLimit_window (storage : gmap jstr stored) (key : jstr)
    (maxRequests timeWindow : Z) (times : list Z) :
  Sorted Z.le times ->
  stored_requests storage (js "rateLimit_" ++ key) = [] ->
  forall u, (Z.of_nat (in_window timeWindow u
    (allowed_times (snd (run_calls storage key maxRequests timeWindow times))))
    <= Z.max 0 maxRequests)%Z.
Proof.
  intros Hs H0 u.
  apply Sorted_StronglySorted in Hs; [|intros x y z; lia].
  change (allowed_times _) with ([] ++ allowed_times (snd (run_calls storage key maxRequests timeWindow times))).
  apply (run_window storage key maxRequests timeWindow times [] (hd 0%Z times) Hs).
  - destruct times as [|t ts]; [constructor|].
    inversion Hs; subst. constructor; [simpl; lia|assumption].
  - constructor.
  - intros v _. rewrite H0. reflexivity.
  - intros v. unfold in_window. simpl. lia.
Qed.

Lemma checkRateLimit_window_witness :
  Sorted Z.le [0; 10; 20; 999; 1000; 1011]%Z
  /\ stored_requests ∅ (js "rateLimit_" ++ js "chat") = []
  /\ forall u, (Z.of_nat (in_window 1000 u
       (allowed_times (snd (run_calls ∅ (js "chat") 2 1000 [0; 10; 20; 999; 1000; 1011]%Z))))
       <= Z.max 0 2)%Z.
Proof.
  assert (Hs : Sorted Z.le [0; 10; 20; 999; 1000; 1011]%Z)
    by (repeat constructor; lia).
  split; [exact Hs|]. split; [reflexivity|].
  apply checkRateLimit_window; [exact Hs|reflexivity].
Defined.

End RateLimitProofs.

(** ** The error log and the guarded helpers *)

Module ErrorLogProofs.
Import Errors ErrorLog.

Lemma logError_log (errorInfo : error_info) (h : handler) :
  errorLog (logError errorInfo h) = firstn maxLogSize (errorInfo :: errorLog h).
Proof.
  unfold logError. simpl. destruct (Nat.ltb maxLogSize _) eqn:E; [reflexivity|].
  apply Nat.ltb_ge in E. rewrite firstn_all2 by (simpl length; unfold maxLogSize in *; lia). reflexivity.
Qed.

Lemma firstn_app_firstn {A} (n : nat) (l m : list A) :
  firstn n (l ++ firstn n m) = firstn n (l ++ m).
Proof. rewrite !firstn_app, firstn_firstn. f_equal. f_equal. lia. Qed.

Lemma handleError_parts (app_present : bool) (now : jstr) (h : handler) (error : js_error)
    (context : jstr) (options : handle_options) :
  let h' := fst (handleError app_present now h error context options) in
  let info := parseError now error context in
  snd (handleError app_present now h error context options) = info
  /\ errorLog h' = firstn maxLogSize (info :: errorLog h)
  /\ displayed h' = displayed h
       ++ (if o_silent options then []
           else [shown_to_user info (o_showDetails options) app_present])
  /\ reported h' = reported h ++ (if o_onError options then [info] else []).
Proof.
  unfold handleError. cbn zeta.
  assert (Hd : forall i h0, displayed (logError i h0) = displayed h0) by reflexivity.
  assert (Hr : forall i h0, reported (logError i h0) = reported h0) by reflexivity.
  destruct (o_silent options), (o_onError options);
    cbn [fst snd errorLog displayed reported showErrorToUser];
    rewrite ?logError_log, ?Hd, ?Hr, ?app_nil_r; repeat split; reflexivity.
Qed.

(** X9: from a log of at most 100 entries (the constructor starts empty),
    after any sequence of [handleError] calls [errorLog] holds the
    [errorInfo] of the most recent entries, newest first, at most 100 of
    them; the user was shown one message per call that was not silent, in
    order; and the [onError] callbacks received the [errorInfo] of exactly
    the calls that passed one. *)
Theorem handle_all_effects (app_present : bool) (h : handler)
    (calls : list (jstr * js_error * jstr * handle_options)) :
  (length (errorLog h) <= maxLogSize)%nat ->
  errorLog (handle_all app_present h calls)
    = firstn maxLogSize (rev (map call_info calls) ++ errorLog h)
  /\ displayed (handle_all app_present h calls)
    = displayed h ++ map (fun c => shown_to_user (call_info c)
                                    (o_showDetails (call_options c)) app_present)
                       (List.filter (fun c => negb (o_silent (call_options c))) calls)
  /\ reported (handle_all app_present h calls)
    = reported h ++ map call_info (List.filter (fun c => o_onError (call_options c)) calls).
Proof.
  revert h. induction calls as [|[[[now error] context] options] rest IH]; intros h Hlen.
  - simpl. rewrite !app_nil_r. repeat split.
    symmetry. apply firstn_all2. exact Hlen.
  - assert (E : handle_all app_present h ((now, error, context, options) :: rest)
                 = handle_all app_present
                     (fst (handleError app_present now h error context options)) rest)
      by reflexivity.
    rewrite E.
    destruct (handleError_parts app_present now h error context options)
      as (_ & Hlog & Hdisp & Hrep).
    set (h1 := fst (handleError app_present now h error context options)) in *.
    destruct (IH h1) as (IHlog & IHdisp & IHrep).
    { rewrite Hlog. apply firstn_le_length. }
    repeat split.
    + rewrite IHlog, Hlog, firstn_app_firstn. simpl.
      rewrite <- app_assoc. reflexivity.
    + rewrite IHdisp, Hdisp. simpl.
      destruct (o_silent options); simpl; rewrite <- app_assoc; reflexivity.
    + rewrite IHrep, Hrep. simpl.
      destruct (o_onError options); simpl; rewrite <- app_assoc; reflexivity.
Qed.

Lemma handle_all_effects_witness :
  (length (errorLog new_handler) <= maxLogSize)%nat
  /\ errorLog (handle_all true new_handler
                 [(js "t1", ErrString (js "HTTP 404"), js "Chat", no_options);
                  (js "t2", ErrOther, js "JSON Parse", silent_options)])
     = firstn maxLogSize
         (rev (map call_info
                 [(js "t1", ErrString (js "HTTP 404"), js "Chat", no_options);
                  (js "t2", ErrOther, js "JSON Parse", silent_options)])
          ++ errorLog new_handler).
Proof.
  assert (H : (length (errorLog new_handler) <= maxLogSize)%nat) by (simpl; lia).
  split; [exact H|].
  apply (handle_all_effects true new_handler
           [(js "t1", ErrString (js "HTTP 404"), js "Chat", no_options);
            (js "t2", ErrOther, js "JSON Parse", silent_options)] H).
Defined.

(** [h'] is [h] with one more [errorInfo] of the given context logged, and
    nothing shown or reported. *)
Definition logged_silently (h h' : handler) (context : jstr) : Prop :=
  displayed h' = displayed h /\ reported h' = reported h
  /\ exists info, ei_context info = context
                  /\ errorLog h' = firstn maxLogSize (info :: errorLog h).

Lemma handleError_silent (app_present : bool) (now : jstr) (h : handler) (error : js_error)
    (context : jstr) :
  logged_silently h (fst (handleError app_present now h error context silent_options)) context.
Proof.
  destruct (handleError_parts app_present now h error context silent_options)
    as (_ & Hlog & Hdisp & Hrep).
  split; [reflexivity|]. split; [reflexivity|].
  exists (parseError now error context).
  split; [destruct error; reflexivity|exact Hlog].
Qed.

(** X10: [safeJSONParse], [safeLocalStorageGet] and [safeLocalStorageSet]
    never show anything to the user nor call an [onError] callback: each
    either leaves the handler as it was or logs one [errorInfo] with its
    own context and returns the fallback ([false] for the setter, which
    returns [true] only when it logged nothing). *)
Theorem guarded_helpers_silent (app_present : bool) (now : jstr) (h : handler) :
  (forall V (parsed : outcome V) (fallback : V),
     match parsed with
     | inl v => safeJSONParse app_present now h parsed fallback = (h, v)
     | inr _ => snd (safeJSONParse app_present now h parsed fallback) = fallback
                /\ logged_silently h (fst (safeJSONParse app_present now h parsed fallback))
                     (js "JSON Parse")
     end)
  /\ (forall V (item : outcome (option jstr)) (parse : jstr -> outcome V) (fallback : V),
        fst (safeLocalStorageGet app_present now h item parse fallback) = h
        \/ (snd (safeLocalStorageGet app_present now h item parse fallback) = fallback
            /\ logged_silently h (fst (safeLocalStorageGet app_present now h item parse fallback))
                 (js "LocalStorage Get")))
  /\ (forall (text : outcome jstr) (setItem : jstr -> option js_error),
        (snd (safeLocalStorageSet app_present now h text setItem) = true
         /\ fst (safeLocalStorageSet app_present now h text setItem) = h)
        \/ (snd (safeLocalStorageSet app_present now h text setItem) = false
            /\ logged_silently h (fst (safeLocalStorageSet app_present now h text setItem))
                 (js "LocalStorage Set"))).
Proof.
  split; [|split].
  - intros V [v|e] fallback; [reflexivity|].
    split; [reflexivity|exact (handleError_silent app_present now h e (js "JSON Parse"))].
  - intros V [[value|]|e] parse fallback; unfold safeLocalStorageGet.
    + destruct (parse value) as [v|e]; [left; reflexivity|].
      right. split; [reflexivity|].
      exact (handleError_silent app_present now h e (js "LocalStorage Get")).
    + left. reflexivity.
    + right. split; [reflexivity|].
      exact (handleError_silent app_present now h e (js "LocalStorage Get")).
  - intros [str|e] setItem; unfold safeLocalStorageSet.
    + destruct (setItem str) as [e|]; [|left; split; reflexivity].
      right. split; [reflexivity|].
      exact (handleError_silent app_present now h e (js "LocalStorage Set")).
    + right. split; [reflexivity|].
      exact (handleError_silent app_present now h e (js "LocalStorage Set")).
Qed.

(** X11: when the wrapped function throws, [wrapSync] and [wrapAsync] log the
    error with the wrapper's context and show the user exactly one message,
    without details; [wrapSync] then returns the fallback value and
    [wrapAsync] rejects with the same error. When it does not throw, both
    return its result and change nothing. *)
Theorem wrappers_report (app_present : bool) (now : jstr) (h : handler) (context : jstr) :
  forall A (result : outcome A) (fallbackValue : A),
    match result with
    | inl v => wrapSync app_present now h result context fallbackValue = (h, v)
               /\ wrapAsync app_present now h result context = (h, inl v)
    | inr error =>
        snd (wrapSync app_present now h result context fallbackValue) = fallbackValue
        /\ snd (wrapAsync app_present now h result context) = inr error
        /\ fst (wrapSync app_present now h result context fallbackValue)
           = fst (wrapAsync app_present now h result context)
        /\ displayed (fst (wrapSync app_present now h result context fallbackValue))
           = displayed h ++ [shown_to_user (parseError now error context) false app_present]
        /\ errorLog (fst (wrapSync app_present now h result context fallbackValue))
           = firstn maxLogSize (parseError now error context :: errorLog h)
        /\ reported (fst (wrapSync app_present now h result context fallbackValue)) = reported h
    end.
Proof.
  intros A [v|error] fallbackValue; [split; reflexivity|].
  destruct (handleError_parts app_present now h error context no_options)
    as (_ & Hlog & Hdisp & Hrep).
  simpl in Hdisp, Hrep. rewrite app_nil_r in Hrep.
  cbn [wrapSync wrapAsync fst snd].
  repeat split; assumption.
Qed.

(** X12: [getErrorLog(limit)] returns the [limit] most recent entries for a
    non-negative [limit]; a negative [limit] returns every entry but the
    [-limit] oldest. *)
Theorem getErrorLog_limit (h : handler) (limit : Z) :
  ((0 <= limit)%Z -> getErrorLog h limit = firstn (Z.to_nat limit) (errorLog h))
  /\ ((limit < 0)%Z ->
      getErrorLog h limit = firstn (length (errorLog h) - Z.to_nat (- limit)) (errorLog h)).
Proof.
  unfold getErrorLog, slice, rel_index. simpl.
  rewrite (Z.min_l 0) by lia. simpl. rewrite Nat.sub_0_r.
  split; intros Hl.
  - destruct (Z.ltb_spec limit 0) as [H|H]; [lia|].
    destruct (Z.min_spec limit (Z.of_nat (length (errorLog h)))) as [[_ ->]|[Hm ->]];
      [reflexivity|].
    rewrite Nat2Z.id, firstn_all, firstn_all2 by lia. reflexivity.
  - destruct (Z.ltb_spec limit 0) as [H|H]; [|lia].
    f_equal. lia.
Qed.

End ErrorLogProofs.

(** ** Opening a chat, deleting a thread, formatting *)

Module ChatViewProofs.
Import Stream UI Threads ThreadProofs ChatView.

(** X13: [openChat] first records the paper and shows the validating
    status. When validation fails or the paper is invalid it then only shows
    the error message or the reason as an error status. Otherwise it loads
    the thread list, shows the chat, calls [loadThread] on the thread with
    the latest [updated_at] when the server listed threads, or
    [createNewThread] when the list is empty or could not be fetched, and
    clears the status. *)
Theorem openChat_choice (paperId : jstr) (validation : paper_validation)
    (server : option (list thread)) :
  exists rest,
    openChat paperId validation server
      = SetPaper paperId :: Status (js "Validating paper for chat...") StInfo :: rest
    /\ match validation with
       | PVFail msg => rest = [Status (js "Failed to open chat: " ++ msg) StError]
       | PVResult false reason _ => rest = [Status reason StError]
       | PVResult true _ title =>
           (exists ts t, server = Some ts /\ In t ts
              /\ Forall (fun t' => (t_updated_at t' <= t_updated_at t)%Z) ts
              /\ rest = [LoadThreads; Show; LoadThread (t_id t); ClearStatus])
           \/ ((server = None \/ server = Some [])
                /\ exists title', rest = [LoadThreads; Show; CreateThread title'; ClearStatus])
       end.
Proof.
  destruct validation as [msg|[|] reason title]; cbn [openChat app]; eexists;
    (split; [reflexivity|]); cbn iota; [reflexivity| |reflexivity].
  destruct server as [ts|]; cbn [loadPaperThreads].
  - destruct (sort_threads ts) as [|t rest] eqn:Es.
    + right. split; [|eexists; reflexivity]. right. f_equal.
      apply Permutation_nil. rewrite <- Es. unfold sort_threads. apply merge_sort_Permutation.
    + left. exists ts, t.
      pose proof (merge_sort_Permutation newer_or_same ts) as Hp.
      pose proof (StronglySorted_merge_sort newer_or_same ts) as Hs.
      unfold sort_threads in Es. rewrite Es in Hp, Hs.
      split; [reflexivity|]. split.
      * apply list_elem_of_In. rewrite <- Hp. left.
      * split; [|reflexivity].
        apply List.Forall_forall. intros t' Ht'.
        apply list_elem_of_In in Ht'. rewrite <- Hp in Ht'.
        apply elem_of_cons in Ht' as [->|Ht']; [lia|].
        inversion Hs as [|? ? _ Hall]; subst.
        rewrite List.Forall_forall in Hall. apply Hall. apply list_elem_of_In. exact Ht'.
  - right. split; [left; reflexivity|eexists; reflexivity].
Qed.

(** X14: once the current thread is deleted, [currentThreadId] is [null],
    [this.messages] is empty and the welcome is shown, but the message
    elements already on the page stay; typing text then enables the send
    button when no stream runs, yet [sendMessage] sends nothing. *)
Theorem deleteThread_current (st : ui_state) (threadId : jstr) :
  currentThreadId st = Some threadId ->
  currentThreadId (deleteThreadDone threadId st) = None
  /\ messages (deleteThreadDone threadId st) = []
  /\ welcome_shown (deleteThreadDone threadId st) = true
  /\ dom (deleteThreadDone threadId st) = dom st
  /\ forall v,
       sendMessage (onInput v (deleteThreadDone threadId st))
         = (onInput v (deleteThreadDone threadId st), None)
       /\ (isStreaming st = false -> trim v <> [] ->
           send_disabled (onInput v (deleteThreadDone threadId st)) = false).
Proof.
  intros Hc. unfold deleteThreadDone. rewrite Hc, bool_decide_eq_true_2 by reflexivity.
  destruct st as [cur str dis inp msgs d w stat nid pend rel]. simpl in *.
  repeat split; [reflexivity..|].
  intros Hs Hv. rewrite Hs, orb_false_r. apply bool_decide_eq_false_2. exact Hv.
Qed.

Lemma deleteThread_current_witness :
  currentThreadId (typed (js "t1") (js "hi")) = Some (js "t1")
  /\ dom (deleteThreadDone (js "t1") (typed (js "t1") (js "hi")))
     = dom (typed (js "t1") (js "hi")).
Proof.
  assert (H : currentThreadId (typed (js "t1") (js "hi")) = Some (js "t1")) by reflexivity.
  split; [exact H|].
  apply (deleteThread_current (typed (js "t1") (js "hi")) (js "t1") H).
Defined.

Lemma startsWith_cons_ne (d x : N) (ds r : jstr) :
  x <> d -> startsWith (d :: ds) (x :: r) = false.
Proof.
  intros Hne. unfold startsWith. apply bool_decide_eq_false_2.
  simpl. intros H. injection H as H _. congruence.
Qed.

Lemma replace_delimited_absent (d : N) (ds tag_open tag_close : jstr) (fuel : nat) (s : jstr) :
  Forall (fun x => x <> d) s ->
  replace_delimited (d :: ds) tag_open tag_close fuel s = s.
Proof.
  revert s. induction fuel as [|fuel IH]; intros s Hs; [reflexivity|].
  destruct s as [|x r]; [reflexivity|]. inversion Hs as [|? ? Hx Hr]; subst.
  simpl replace_delimited. rewrite startsWith_cons_ne by exact Hx.
  rewrite IH by exact Hr. reflexivity.
Qed.

(** X15: [formatMessageContent] escapes nothing: a content without [*],
    backquote or line feed comes back unchanged, markup included; and its
    output never holds a line feed. *)
Theorem formatMessageContent_unescaped (content : jstr) :
  ~ In 10%N (formatMessageContent content)
  /\ (Forall (fun c => c <> 42%N /\ c <> 96%N /\ c <> 10%N) content ->
      formatMessageContent content = content).
Proof.
  split.
  - destruct content as [|c0 rest]; [simpl; tauto|]. unfold formatMessageContent.
    intros Hin. apply in_flat_map in Hin as [x [_ Hx]].
    destruct (x =? 10)%N eqn:E; simpl in Hx.
    + repeat destruct Hx as [Hx|Hx]; try discriminate Hx. exact Hx.
    + destruct Hx as [Hx|[]]. subst x. discriminate E.
  - intros H. destruct content as [|c0 rest]; [reflexivity|].
    unfold formatMessageContent, replace_pairs.
    assert (H42 : Forall (fun x => x <> 42%N) (c0 :: rest))
      by (eapply Forall_impl; [exact H|]; intros x [? _]; assumption).
    assert (H96 : Forall (fun x => x <> 96%N) (c0 :: rest))
      by (eapply Forall_impl; [exact H|]; intros x [_ [? _]]; assumption).
    change (js "**") with [42%N; 42%N]. change (js "*") with [42%N]. change (js "`") with [96%N].
    rewrite (replace_delimited_absent 42 [42%N] _ _ _ (c0 :: rest) H42).
    rewrite (replace_delimited_absent 42 [] _ _ _ (c0 :: rest) H42).
    rewrite (replace_delimited_absent 96 [] _ _ _ (c0 :: rest) H96).
    clear H42 H96. induction H as [|x l [_ [_ Hx]] _ IH]; [reflexivity|].
    simpl. apply N.eqb_neq in Hx. rewrite Hx. simpl. f_equal. exact IH.
Qed.

(** X16: [formatDate] labels a date by its distance to now in either
    direction, counted in started days: [0 days ago] for the same instant,
    [Today] up to one day, [Yesterday] up to two days, [n days ago] for
    [n] from 3 to 6, and the locale date beyond six days. *)
Theorem formatDate_labels (toLocaleDateString : option Z -> jstr) (now t : Z) :
  (Z.abs (now - t) = 0 -> formatDate toLocaleDateString now (Some t) = js "0 days ago")%Z
  /\ (0 < Z.abs (now - t) <= 86400000 ->
      formatDate toLocaleDateString now (Some t) = js "Today")%Z
  /\ (86400000 < Z.abs (now - t) <= 172800000 ->
      formatDate toLocaleDateString now (Some t) = js "Yesterday")%Z
  /\ (172800000 < Z.abs (now - t) <= 518400000 ->
      exists n, 3 <= n <= 6
        /\ (n - 1) * 86400000 < Z.abs (now - t) <= n * 86400000
        /\ formatDate toLocaleDateString now (Some t) = [(48 + Z.to_N n)%N] ++ js " days ago")%Z
  /\ (518400000 < Z.abs (now - t) ->
      formatDate toLocaleDateString now (Some t) = toLocaleDateString (Some t))%Z.
Proof.
  unfold formatDate. cbv zeta.
  set (d := Z.abs (now - t)).
  assert (Hd : (0 <= d)%Z) by (unfold d; lia). clearbody d.
  repeat split; intros Hr.
  - subst d. reflexivity.
  - replace ((d + 86399999) / 86400000)%Z with 1%Z by (Z.div_mod_to_equations; lia). reflexivity.
  - replace ((d + 86399999) / 86400000)%Z with 2%Z by (Z.div_mod_to_equations; lia). reflexivity.
  - set (n := ((d + 86399999) / 86400000)%Z).
    assert (Hn : (3 <= n <= 6 /\ (n - 1) * 86400000 < d <= n * 86400000)%Z)
      by (unfold n; Z.div_mod_to_equations; lia).
    exists n. split; [lia|]. split; [lia|].
    destruct (Z.eqb_spec n 1); [lia|]. destruct (Z.eqb_spec n 2); [lia|].
    destruct (Z.ltb_spec n 7); [|lia].
    assert (Hc : n = 3%Z \/ n = 4%Z \/ n = 5%Z \/ n = 6%Z) by lia.
    destruct Hc as [ -> | [ -> | [ -> | -> ]]]; reflexivity.
  - assert (H7 : (7 <= (d + 86399999) / 86400000)%Z)
      by (Z.div_mod_to_equations; lia).
    destruct (Z.eqb_spec ((d + 86399999) / 86400000) 1); [lia|].
    destruct (Z.eqb_spec ((d + 86399999) / 86400000) 2); [lia|].
    destruct (Z.ltb_spec ((d + 86399999) / 86400000) 7); [lia|]. reflexivity.
Qed.

End ChatViewProofs.
